(** * Verification of the highlight pipeline of criteria-assistant-web

    Shallow embedding of the projector ([projector.ts]), tokenizer
    ([tokenizer.ts]), matcher ([matcher.ts]), match store ([store.ts]),
    renderer ([renderer.ts]) and search controller ([controller.ts]).

    Numbers of the coordinate code are modelled as real numbers: the
    embedding is exact arithmetic, IEEE rounding is not modelled.
    Strings are lists of (ASCII) code units. *)

From Stdlib Require Import Reals Lra ZArith Lia List Bool Ascii String.
From Stdlib Require Import Sorting.Sorted.
Import ListNotations.

Open Scope R_scope.

(* ------------------------------------------------------------------ *)
(** ** Projector (src/unnamed/part_012, projector.ts) *)

Module Projector.

(** [interface Viewport] of types/viewport.ts. *)
Record Viewport := mkViewport {
  width : R;
  height : R;
  scale : R;
  rotation : Z
}.

(** [PdfRect] and [CssRect] are both [[number, number, number, number]]. *)
Definition Rect4 : Type := (R * R * R * R)%type.
Definition PdfRect := Rect4.
Definition CssRect := Rect4.

Record Point := mkPoint { px : R; py : R }.

(** [Math.min(...xs)] and [Math.max(...xs)] on the non-empty lists of
    corner coordinates used below (four corners). *)
Definition Math_min (l : list R) : R :=
  match l with
  | [] => 0
  | x :: xs => fold_left Rmin xs x
  end.

Definition Math_max (l : list R) : R :=
  match l with
  | [] => 0
  | x :: xs => fold_left Rmax xs x
  end.

(** [getRectangleCorners] *)
Definition getRectangleCorners (r : PdfRect) : list Point :=
  let '(x, y, w, h) := r in
  [ mkPoint x y; mkPoint (x + w) y; mkPoint (x + w) (y + h); mkPoint x (y + h) ].

(** [rotatePoint] *)
Definition rotatePoint (p : Point) (angleDegrees centerX centerY : R) : Point :=
  let angleRad := (angleDegrees * PI) / 180 in
  let c := cos angleRad in
  let s := sin angleRad in
  let relX := px p - centerX in
  let relY := py p - centerY in
  let rotatedX := relX * c - relY * s in
  let rotatedY := relX * s + relY * c in
  mkPoint (rotatedX + centerX) (rotatedY + centerY).

(** [pdfToCss] *)
Definition pdfToCss (bboxPdf : PdfRect) (viewport : Viewport) : CssRect :=
  let '(pdfX, pdfY, pdfW, pdfH) := bboxPdf in
  if Z.eqb (rotation viewport) 0 then
    let cssLeft := pdfX * scale viewport in
    let cssTop := height viewport - (pdfY * scale viewport + pdfH * scale viewport) in
    let cssWidth := pdfW * scale viewport in
    let cssHeight := pdfH * scale viewport in
    (cssLeft, cssTop, cssWidth, cssHeight)
  else
    let corners := getRectangleCorners (pdfX, pdfY, pdfW, pdfH) in
    let rotatedCorners := map (fun corner =>
      rotatePoint corner (IZR (rotation viewport))
        (width viewport / (2 * scale viewport))
        (height viewport / (2 * scale viewport))) corners in
    let minX := Math_min (map px rotatedCorners) in
    let maxX := Math_max (map px rotatedCorners) in
    let minY := Math_min (map py rotatedCorners) in
    let maxY := Math_max (map py rotatedCorners) in
    let cssLeft := minX * scale viewport in
    let cssTop := height viewport - (maxY * scale viewport) in
    let cssWidth := (maxX - minX) * scale viewport in
    let cssHeight := (maxY - minY) * scale viewport in
    (cssLeft, cssTop, cssWidth, cssHeight).

(** [cssToPdf] *)
Definition cssToPdf (cssRect : CssRect) (viewport : Viewport) : PdfRect :=
  let '(cssLeft, cssTop, cssWidth, cssHeight) := cssRect in
  if Z.eqb (rotation viewport) 0 then
    let pdfX := cssLeft / scale viewport in
    let pdfY := (height viewport - (cssTop + cssHeight)) / scale viewport in
    let pdfW := cssWidth / scale viewport in
    let pdfH := cssHeight / scale viewport in
    (pdfX, pdfY, pdfW, pdfH)
  else
    let pdfLeft := cssLeft / scale viewport in
    let pdfTop := (height viewport - cssTop) / scale viewport in
    let pdfWidth := cssWidth / scale viewport in
    let pdfHeight := cssHeight / scale viewport in
    let pdfRect : PdfRect := (pdfLeft, pdfTop - pdfHeight, pdfWidth, pdfHeight) in
    let corners := getRectangleCorners pdfRect in
    let rotatedCorners := map (fun corner =>
      rotatePoint corner (IZR (- rotation viewport))
        (width viewport / (2 * scale viewport))
        (height viewport / (2 * scale viewport))) corners in
    let minX := Math_min (map px rotatedCorners) in
    let maxX := Math_max (map px rotatedCorners) in
    let minY := Math_min (map py rotatedCorners) in
    let maxY := Math_max (map py rotatedCorners) in
    (minX, minY, maxX - minX, maxY - minY).

(** Component-wise distance check used by the projector tests. *)
Definition within (tol : R) (a b : Rect4) : Prop :=
  let '(a0, a1, a2, a3) := a in
  let '(b0, b1, b2, b3) := b in
  Rabs (a0 - b0) <= tol /\ Rabs (a1 - b1) <= tol /\
  Rabs (a2 - b2) <= tol /\ Rabs (a3 - b3) <= tol.

(** Screen-top component of a [CssRect] and document-y of a [PdfRect]. *)
Definition css_top (r : CssRect) : R := let '(_, t, _, _) := r in t.
Definition pdf_y (r : PdfRect) : R := let '(_, y, _, _) := r in y.

Definition with_height (vp : Viewport) (hh : R) : Viewport :=
  mkViewport (width vp) hh (scale vp) (rotation vp).

(** Width and height of a [Rect4]. *)
Definition rect_width (r : Rect4) : R := let '(_, _, w, _) := r in w.
Definition rect_height (r : Rect4) : R := let '(_, _, _, h) := r in h.

(** [createValidationCrosshairs]: 10px squares at the four PDF page corners. *)
Definition createValidationCrosshairs (viewport : Viewport) : list CssRect :=
  let pageWidth := width viewport / scale viewport in
  let pageHeight := height viewport / scale viewport in
  let crosshairSize := 10 / scale viewport in
  let corners : list PdfRect :=
    [ (0, 0, crosshairSize, crosshairSize);
      (pageWidth - crosshairSize, 0, crosshairSize, crosshairSize);
      (pageWidth - crosshairSize, pageHeight - crosshairSize, crosshairSize, crosshairSize);
      (0, pageHeight - crosshairSize, crosshairSize, crosshairSize) ] in
  map (fun corner => pdfToCss corner viewport) corners.

(** Viewports used by the witnesses (the scenarios of the test suite). *)
Definition vp_rot90 : Viewport := mkViewport 600 800 1 90.
Definition vp_letter : Viewport := mkViewport 612 792 1 0.

End Projector.


(* ------------------------------------------------------------------ *)
(** ** Tokenizer (src/src/modules/tokenizer/tokenizer.ts) *)

Module Tokenizer.

Open Scope nat_scope.

(** [interface Token]; the text is a list of code units. *)
Record Token (C : Type) := mkToken {
  tok_text : list C;
  startIndex : nat;
  endIndex : nat
}.
Arguments mkToken {C} _ _ _.
Arguments tok_text {C} _.
Arguments startIndex {C} _.
Arguments endIndex {C} _.

Section Tokenize.

(** Code units and the regular-expression class [\s]. *)
Variable C : Type.
Variable is_space : C -> bool.

(** Length of the longest prefix whose characters satisfy [p]: a greedy
    [p+] atom. *)
Fixpoint run (p : C -> bool) (l : list C) : nat :=
  match l with
  | [] => 0
  | c :: cs => if p c then S (run p cs) else 0
  end.

(** The pattern [(\S+|\s+)] tried at position [i]: the left alternative
    [\S+] first, then [\s+]; the result is the match length. *)
Definition match_alt (s : list C) (i : nat) : option nat :=
  let rest := skipn i s in
  let n1 := run (fun c => negb (is_space c)) rest in
  if 0 <? n1 then Some n1
  else
    let n2 := run is_space rest in
    if 0 <? n2 then Some n2 else None.

(** Scan for the leftmost match starting at position [i] or later. *)
Fixpoint search (s : list C) (i fuel : nat) : option (nat * nat) :=
  match fuel with
  | 0 => None
  | S f =>
      match match_alt s i with
      | Some n => Some (i, n)
      | None => search s (S i) f
      end
  end.

(** [tokenRegex.exec(text)] for a global regex with [lastIndex]: it fails
    when [lastIndex] is past the end, otherwise it tries every position
    from [lastIndex] to [text.length]. *)
Definition regex_exec (s : list C) (lastIndex : nat) : option (nat * nat) :=
  if List.length s <? lastIndex then None
  else search s lastIndex (S (List.length s - lastIndex)).

(** The [while ((match = tokenRegex.exec(text)) !== null)] loop; after a
    match of List.length [n] at [index], [lastIndex] becomes [index + n].  Each
    match is non-empty, so [List.length text + 1] rounds suffice. *)
Fixpoint tokenize_loop (s : list C) (lastIndex fuel : nat) : list (Token C) :=
  match fuel with
  | 0 => []
  | S f =>
      match regex_exec s lastIndex with
      | None => []
      | Some (index, n) =>
          let tokenText := firstn n (skipn index s) in
          mkToken tokenText index (index + List.length tokenText)
            :: tokenize_loop s (index + n) f
      end
  end.

(** [tokenize] *)
Definition tokenize (s : list C) : list (Token C) :=
  tokenize_loop s 0 (S (List.length s)).

(** Tokens cover [s] from index [i] on: contiguous, non-empty, each token
    text is the slice [s[start:end]], and the last ends at [List.length s]. *)
Fixpoint covers (s : list C) (i : nat) (ts : list (Token C)) : Prop :=
  match ts with
  | [] => i = List.length s
  | t :: ts' =>
      startIndex t = i /\ tok_text t <> [] /\
      endIndex t = i + List.length (tok_text t) /\
      tok_text t = firstn (List.length (tok_text t)) (skipn i s) /\
      covers s (endIndex t) ts'
  end.

(** A token is a maximal run of one class [b] ([true]: whitespace,
    [false]: non-whitespace): all its characters are of class [b], and the
    characters just before and just after it (if any) are not. *)
Definition maximal_run (s : list C) (t : Token C) : Prop :=
  exists b : bool,
    forallb (fun c => Bool.eqb (is_space c) b) (tok_text t) = true /\
    (startIndex t = 0 \/
       exists c, nth_error s (startIndex t - 1) = Some c /\ is_space c <> b) /\
    (endIndex t = List.length s \/
       exists c, nth_error s (endIndex t) = Some c /\ is_space c <> b).

(** Helpers of the tokenizer proofs: membership in a class, and the
    boundaries of the runs. *)
Definition same_class (b : bool) (c : C) : bool := Bool.eqb (is_space c) b.

(** Loop invariant: position [i] is the start of the text, its end, or a
    class change. *)
Definition boundary (s : list C) (i : nat) : Prop :=
  i = 0 \/ i = List.length s \/
  exists c d, nth_error s (i - 1) = Some c /\ nth_error s i = Some d /\
              is_space c <> is_space d.

End Tokenize.

Arguments run {C} _ _.
Arguments match_alt {C} _ _ _.
Arguments search {C} _ _ _ _.
Arguments regex_exec {C} _ _ _.
Arguments tokenize_loop {C} _ _ _ _.
Arguments tokenize {C} _ _.
Arguments covers {C} _ _ _.
Arguments maximal_run {C} _ _ _.
Arguments same_class {C} _ _ _.
Arguments boundary {C} _ _ _.

(** JavaScript's [\s] on ASCII code units: TAB, LF, VT, FF, CR and SPACE. *)
Definition js_is_space (c : ascii) : bool :=
  let n := nat_of_ascii c in
  (n =? 9) || (n =? 10) || (n =? 11) || (n =? 12) || (n =? 13) || (n =? 32).

Definition str (s : string) : list ascii := list_ascii_of_string s.

(** [findTokenAtIndex]: the first token with
    [token.startIndex <= charIndex < token.endIndex], or [null]. *)
Fixpoint findTokenAtIndex {C : Type} (tokens : list (Token C)) (charIndex : Z)
    : option (Token C) :=
  match tokens with
  | [] => None
  | token :: rest =>
      if Z.leb (Z.of_nat (startIndex token)) charIndex &&
         Z.ltb charIndex (Z.of_nat (endIndex token))
      then Some token
      else findTokenAtIndex rest charIndex
  end.

(** [String.prototype.substring(a, b)] on non-negative indices: both are
    clamped to the length and swapped when [a > b]. *)
Definition substring {C : Type} (s : list C) (a b : nat) : list C :=
  let a' := Nat.min a (List.length s) in
  let b' := Nat.min b (List.length s) in
  firstn (Nat.max a' b' - Nat.min a' b') (skipn (Nat.min a' b') s).

(** [getTokenRangeText]; the guard makes both array reads defined. *)
Definition getTokenRangeText {C : Type} (tokens : list (Token C))
    (startTokenIndex endTokenIndex : Z) : list C :=
  if Z.ltb startTokenIndex 0 || Z.leb (Z.of_nat (List.length tokens)) endTokenIndex ||
     Z.ltb endTokenIndex startTokenIndex
  then []
  else
    match nth_error tokens (Z.to_nat startTokenIndex),
          nth_error tokens (Z.to_nat endTokenIndex) with
    | Some startTok, Some endTok =>
        let originalText := List.concat (map tok_text tokens) in
        substring originalText (startIndex startTok) (endIndex endTok)
    | _, _ => []
    end.

End Tokenizer.


(* ------------------------------------------------------------------ *)
(** ** Matcher (src/unnamed/part_011, matcher.ts) and [normalizeText] *)

Module Matcher.

Import Tokenizer.
Open Scope nat_scope.

(** [String.prototype.toLowerCase] on one code unit. Exact on 7-bit code
    units (below 128), where it lowers exactly A-Z; above 127 JavaScript
    also lowers Latin-1 and other letters, which this model does not. *)
Definition lower (c : ascii) : ascii :=
  let n := nat_of_ascii c in
  if (65 <=? n) && (n <=? 90) then ascii_of_nat (n + 32) else c.

(** [normalize('NFKC')]: Unicode NFKC leaves every 7-bit code unit as it
    is, so the identity is exact on 7-bit text. On other text NFKC may
    change characters and lengths ([U+FB01] becomes "fi"); the statements
    about the matcher that depend on it assume 7-bit text ([is_ascii7]). *)
Definition nfkc (s : list ascii) : list ascii := s.

(** The text is made of 7-bit code units, on which [nfkc], [lower] and
    [js_is_space] coincide with JavaScript's [normalize('NFKC')],
    [toLowerCase] and [\s]. *)
Definition is_ascii7 (s : list ascii) : bool :=
  forallb (fun c => nat_of_ascii c <? 128) s.

(** [String.prototype.trim]: strips leading and trailing white space and
    line terminators (the [\s] class). *)
Fixpoint trim_start (s : list ascii) : list ascii :=
  match s with
  | [] => []
  | c :: cs => if js_is_space c then trim_start cs else s
  end.

Definition trim (s : list ascii) : list ascii :=
  rev (trim_start (rev (trim_start s))).

(** [normalizeText] of tokenizer.ts. *)
Definition normalizeText (text : list ascii) : list ascii :=
  trim (map lower (nfkc text)).

Fixpoint prefixb (q s : list ascii) : bool :=
  match q, s with
  | [], _ => true
  | a :: q', b :: s' => Ascii.eqb a b && prefixb q' s'
  | _ :: _, [] => false
  end.

Fixpoint indexOf_from (s q : list ascii) (k : nat) : option nat :=
  if prefixb q s then Some k
  else match s with
       | [] => None
       | _ :: s' => indexOf_from s' q (S k)
       end.

(** [String.prototype.indexOf(q, pos)]: the position is clamped to the
    length; [-1] when there is no occurrence. *)
Definition indexOf (s q : list ascii) (pos : nat) : Z :=
  let start := Nat.min pos (List.length s) in
  match indexOf_from (skipn start s) q start with
  | Some k => Z.of_nat k
  | None => (-1)%Z
  end.

(** ECMAScript [ToInt32]. *)
Definition toInt32 (x : Z) : Z :=
  let m := Z.modulo x (2 ^ 32) in
  if Z.leb (2 ^ 31) m then (m - 2 ^ 32)%Z else m.

(** [generateTermId]: the returned string is [`term_${n}`]; the model keeps
    the number [n]. *)
Definition generateTermId (query : list ascii) : Z :=
  Z.abs (fold_left (fun hash c =>
           let ch := Z.of_nat (nat_of_ascii c) in
           toInt32 (toInt32 (toInt32 hash * 32) - hash + ch)%Z) query 0%Z).

(** [interface MatchSpan] *)
Record MatchSpan := mkSpan {
  span_start : Z;
  span_end : Z;
  span_termId : Z
}.

(** [originalChar.normalize('NFKC').toLowerCase()] for one code unit. *)
Definition char_norm (c : ascii) : list ascii := map lower (nfkc [c]).

(** The [while] loop of [findOriginalIndex]. *)
Fixpoint original_walk (orig : list ascii) (originalIndex normalizedCount
                        normalizedIndex : nat) : nat :=
  match orig with
  | [] => originalIndex
  | c :: cs =>
      if normalizedCount <? normalizedIndex then
        original_walk cs (S originalIndex)
          (normalizedCount + List.length (char_norm c)) normalizedIndex
      else originalIndex
  end.

(** [findOriginalIndex] *)
Definition findOriginalIndex (originalText normalizedText : list ascii)
    (normalizedIndex : nat) : Z :=
  if List.length originalText =? List.length normalizedText then Z.of_nat normalizedIndex
  else Z.of_nat (original_walk originalText 0 0 normalizedIndex).

(** The search loop of [findMatches]; [searchIndex] grows strictly, so
    [length normalizedFullText + 1] rounds suffice. *)
Fixpoint find_loop (fullText normalizedFullText normalizedQuery : list ascii)
    (termId : Z) (searchIndex fuel : nat) : list MatchSpan :=
  match fuel with
  | 0 => []
  | S f =>
      if searchIndex <? List.length normalizedFullText then
        let matchIndex := indexOf normalizedFullText normalizedQuery searchIndex in
        if Z.eqb matchIndex (-1) then []
        else
          let m := Z.to_nat matchIndex in
          let startIndex := findOriginalIndex fullText normalizedFullText m in
          let endIndex := findOriginalIndex fullText normalizedFullText
                            (m + List.length normalizedQuery) in
          (if negb (Z.eqb startIndex (-1)) && negb (Z.eqb endIndex (-1))
           then [mkSpan startIndex endIndex termId] else [])
          ++ find_loop fullText normalizedFullText normalizedQuery termId (S m) f
      else []
  end.

(** [findMatches] *)
Definition findMatches (tokens : list (Token ascii)) (query : list ascii)
    : list MatchSpan :=
  match trim query, tokens with
  | [], _ | _, [] => []
  | _, _ =>
      let normalizedQuery := normalizeText query in
      let termId := generateTermId query in
      let fullText := List.concat (map tok_text tokens) in
      let normalizedFullText := normalizeText fullText in
      find_loop fullText normalizedFullText normalizedQuery termId 0
        (S (List.length normalizedFullText))
  end.

(** [T[start:end]] *)
Definition slice (t : list ascii) (i j : Z) : list ascii :=
  firstn (Z.to_nat j - Z.to_nat i) (skipn (Z.to_nat i) t).

(** Number of (overlapping) occurrences of [q] in [s]. *)
Fixpoint count_occurrences (s q : list ascii) : nat :=
  match s with
  | [] => if prefixb q s then 1 else 0
  | _ :: s' => (if prefixb q s then 1 else 0) + count_occurrences s' q
  end.

(** The [while] loop of [findPartialMatches] inside one token; [matchIndex]
    is at least [tokenSearchIndex], so [normalizedToken.length + 1] rounds
    suffice. *)
Fixpoint partial_loop (normalizedToken normalizedQuery : list ascii) (tokenStart : nat)
    (termId : Z) (tokenSearchIndex fuel : nat) : list MatchSpan :=
  match fuel with
  | 0 => []
  | S f =>
      if tokenSearchIndex <? List.length normalizedToken then
        let matchIndex := indexOf normalizedToken normalizedQuery tokenSearchIndex in
        if Z.eqb matchIndex (-1) then []
        else
          let m := Z.to_nat matchIndex in
          mkSpan (Z.of_nat (tokenStart + m))
                 (Z.of_nat (tokenStart + m + List.length normalizedQuery)) termId
          :: partial_loop normalizedToken normalizedQuery tokenStart termId (S m) f
      else []
  end.

(** [findPartialMatches]: whitespace tokens ([token.text.trim() === ''])
    are skipped. *)
Definition findPartialMatches (tokens : list (Token ascii)) (query : list ascii)
    : list MatchSpan :=
  match trim query, tokens with
  | [], _ | _, [] => []
  | _, _ =>
      let normalizedQuery := normalizeText query in
      let termId := generateTermId query in
      List.concat (map (fun token =>
        match trim (tok_text token) with
        | [] => []
        | _ =>
            let normalizedToken := normalizeText (tok_text token) in
            partial_loop normalizedToken normalizedQuery (startIndex token) termId 0
              (S (List.length normalizedToken))
        end) tokens)
  end.

(** [findWholeWordMatches] *)
Definition findWholeWordMatches (tokens : list (Token ascii)) (query : list ascii)
    : list MatchSpan :=
  match trim query, tokens with
  | [], _ | _, [] => []
  | _, _ =>
      let normalizedQuery := normalizeText query in
      let termId := generateTermId query in
      List.concat (map (fun token =>
        match trim (tok_text token) with
        | [] => []
        | _ =>
            if list_eq_dec ascii_dec (normalizeText (tok_text token)) normalizedQuery
            then [mkSpan (Z.of_nat (startIndex token)) (Z.of_nat (endIndex token)) termId]
            else []
        end) tokens)
  end.

(** [[...matches].sort((a, b) => a.startIndex - b.startIndex)]: the sort of
    [Array.prototype.sort] is stable, so the result is the stable sort by
    [startIndex], written here as an insertion sort. *)
Fixpoint insert_by_start (m : MatchSpan) (l : list MatchSpan) : list MatchSpan :=
  match l with
  | [] => [m]
  | y :: l' => if Z.leb (span_start m) (span_start y) then m :: l
               else y :: insert_by_start m l'
  end.

Definition sort_by_start (l : list MatchSpan) : list MatchSpan :=
  fold_right insert_by_start [] l.

(** The [for] loop of [mergeMatches], with [current] and the rest of the
    sorted matches. *)
Fixpoint merge_loop (current : MatchSpan) (rest : list MatchSpan) : list MatchSpan :=
  match rest with
  | [] => [current]
  | next :: rest' =>
      if Z.leb (span_start next) (span_end current)
      then merge_loop (mkSpan (span_start current)
                              (Z.max (span_end current) (span_end next))
                              (span_termId current)) rest'
      else current :: merge_loop next rest'
  end.

(** [mergeMatches] *)
Definition mergeMatches (matches : list MatchSpan) : list MatchSpan :=
  if List.length matches <=? 1 then matches
  else match sort_by_start matches with
       | [] => []
       | current :: rest => merge_loop current rest
       end.

(** Span [o] contains span [m]. *)
Definition span_within (m o : MatchSpan) : Prop :=
  (span_start o <= span_start m)%Z /\ (span_end m <= span_end o)%Z.

End Matcher.


(* ------------------------------------------------------------------ *)
(** ** Match store (src/src/modules/store/store.ts) *)

Module Store.

Import Projector.

Fixpoint text_eqb (a b : list ascii) : bool :=
  match a, b with
  | [], [] => true
  | x :: a', y :: b' => Ascii.eqb x y && text_eqb a' b'
  | _, _ => false
  end.

(** [interface MatchRect]; [termId] keeps the number of the string
    [`term_${n}`] made by [generateTermId]. *)
Record MatchRect := mkMatchRect {
  page : N;
  termId : Z;
  order : Z;
  bboxPdf : PdfRect;
  sourceDivId : option (list ascii)
}.

(** [matchRectsByPage: Record<number, MatchRect[]>]: a JavaScript object
    whose keys are page numbers enumerates them in ascending order; the
    model keeps the entries sorted by key. *)
Definition PageMap := list (N * list MatchRect).

Fixpoint obj_set (m : PageMap) (k : N) (v : list MatchRect) : PageMap :=
  match m with
  | [] => [(k, v)]
  | (k', v') :: m' =>
      if N.eqb k k' then (k, v) :: m'
      else if N.ltb k k' then (k, v) :: m
      else (k', v') :: obj_set m' k v
  end.

Definition obj_delete (m : PageMap) (k : N) : PageMap :=
  filter (fun kv => negb (N.eqb (fst kv) k)) m.

Fixpoint obj_get (m : PageMap) (k : N) : option (list MatchRect) :=
  match m with
  | [] => None
  | (k', v) :: m' => if N.eqb k k' then Some v else obj_get m' k
  end.

(** [interface StoreState] *)
Record StoreState := mkStore {
  matchRectsByPage : PageMap;
  activeIndex : Z;
  totalMatches : nat;
  currentQuery : list ascii
}.

(** Initial state of [MatchStore]. *)
Definition initial_store : StoreState := mkStore [] (-1) 0 [].

(** Listeners ([notifyListeners]) observe the state and do not change it;
    they are not modelled. *)

(** [updateTotalMatches] *)
Definition updateTotalMatches (st : StoreState) : StoreState :=
  mkStore (matchRectsByPage st) (activeIndex st)
    (fold_left (fun total kv => total + List.length (snd kv))%nat (matchRectsByPage st) 0%nat)
    (currentQuery st).

(** [setMatchRects] *)
Definition setMatchRects (pg : N) (rects : list MatchRect) (st : StoreState) : StoreState :=
  updateTotalMatches
    (mkStore (obj_set (matchRectsByPage st) pg rects) (activeIndex st)
       (totalMatches st) (currentQuery st)).

(** [getMatchRects] *)
Definition getMatchRects (pg : N) (st : StoreState) : list MatchRect :=
  match obj_get (matchRectsByPage st) pg with
  | Some l => l
  | None => []
  end.

(** [getAllMatchRects]: pages in ascending numeric order. *)
Definition getAllMatchRects (st : StoreState) : list MatchRect :=
  List.concat (map snd (matchRectsByPage st)).

(** [getTotalMatches] *)
Definition getTotalMatches (st : StoreState) : Z := Z.of_nat (totalMatches st).

(** [setActiveIndex] *)
Definition setActiveIndex (index : Z) (st : StoreState) : StoreState :=
  let total := getTotalMatches st in
  let ai := if Z.eqb total 0 then (-1)%Z
            else Z.max 0 (Z.min index (total - 1)) in
  mkStore (matchRectsByPage st) ai (totalMatches st) (currentQuery st).

(** [getActiveMatch] *)
Definition getActiveMatch (st : StoreState) : option MatchRect :=
  let allRects := getAllMatchRects st in
  let ai := activeIndex st in
  if Z.leb 0 ai && Z.ltb ai (Z.of_nat (List.length allRects))
  then nth_error allRects (Z.to_nat ai) else None.

(** [nextMatch]; JavaScript's [%] is [Z.rem]. *)
Definition nextMatch (st : StoreState) : StoreState :=
  let total := getTotalMatches st in
  if Z.eqb total 0 then st
  else
    let currentIndex := activeIndex st in
    let nextIndex := if Z.ltb currentIndex 0 then 0%Z
                     else Z.rem (currentIndex + 1) total in
    setActiveIndex nextIndex st.

(** [prevMatch] *)
Definition prevMatch (st : StoreState) : StoreState :=
  let total := getTotalMatches st in
  if Z.eqb total 0 then st
  else
    let currentIndex := activeIndex st in
    let prevIndex := if Z.ltb currentIndex 0 then (total - 1)%Z
                     else Z.rem (currentIndex - 1 + total) total in
    setActiveIndex prevIndex st.

(** [getPageMatches]: entries [(rect, localIndex, globalIndex)]. *)
Fixpoint page_matches_from (m : PageMap) (pg : N) (globalIndex : nat)
    : list (MatchRect * nat * nat) :=
  match m with
  | [] => []
  | (p, rects) :: m' =>
      if N.eqb p pg then
        List.combine (List.combine rects (seq 0 (List.length rects)))
                     (seq globalIndex (List.length rects))
      else page_matches_from m' pg (globalIndex + List.length rects)
  end.

Definition getPageMatches (pg : N) (st : StoreState) : list (MatchRect * nat * nat) :=
  page_matches_from (matchRectsByPage st) pg 0.

(** [clearAllMatches] *)
Definition clearAllMatches (st : StoreState) : StoreState :=
  mkStore [] (-1) 0 (currentQuery st).

(** [clearPageMatches] *)
Definition clearPageMatches (pg : N) (st : StoreState) : StoreState :=
  let st1 := updateTotalMatches
               (mkStore (obj_delete (matchRectsByPage st) pg) (activeIndex st)
                  (totalMatches st) (currentQuery st)) in
  if Z.leb (Z.of_nat (totalMatches st1)) (activeIndex st1)
  then mkStore (matchRectsByPage st1) (-1) (totalMatches st1) (currentQuery st1)
  else st1.

(** [setQuery] *)
Definition setQuery (query : list ascii) (st : StoreState) : StoreState :=
  if negb (text_eqb (currentQuery st) query)
  then clearAllMatches (mkStore (matchRectsByPage st) (activeIndex st)
                          (totalMatches st) query)
  else st.

(** Stores reached from the initial one by a sequence of [setMatchRects]. *)
Definition insert_all (ops : list (N * list MatchRect)) : StoreState :=
  fold_left (fun st op => setMatchRects (fst op) (snd op) st) ops initial_store.

(** Sample match rectangles for concrete stores. *)
Definition sample_rect (pg : N) (ord : Z) : MatchRect :=
  mkMatchRect pg 0 ord (0, 0, 10, 10) None.

(** The cached total agrees with the number of stored rectangles. *)
Definition total_ok (st : StoreState) : Prop :=
  totalMatches st = List.length (getAllMatchRects st).

(** Sample stores: pages 1 and 2 with 3 and 2 matches, inserted in page
    order (orders 0..4) and in the opposite order. *)
Definition store_pages_12 : StoreState :=
  insert_all [(1%N, [sample_rect 1 0; sample_rect 1 1; sample_rect 1 2]);
              (2%N, [sample_rect 2 3; sample_rect 2 4])].

Definition store_pages_21 : StoreState :=
  insert_all [(2%N, [sample_rect 2 0; sample_rect 2 1]);
              (1%N, [sample_rect 1 2; sample_rect 1 3; sample_rect 1 4])].

Definition visited_orders (st : StoreState) (js : list nat) : list (option Z) :=
  map (fun j => option_map order (getActiveMatch (Nat.iter j nextMatch st))) js.

(** The [MatchStore] methods that change the state of the singleton. *)
Inductive StoreCall :=
| CallSetMatchRects (pg : N) (rects : list MatchRect)
| CallSetActiveIndex (index : Z)
| CallNextMatch
| CallPrevMatch
| CallClearAllMatches
| CallClearPageMatches (pg : N)
| CallSetQuery (query : list ascii).

Definition apply_call (c : StoreCall) (st : StoreState) : StoreState :=
  match c with
  | CallSetMatchRects pg rects => setMatchRects pg rects st
  | CallSetActiveIndex i => setActiveIndex i st
  | CallNextMatch => nextMatch st
  | CallPrevMatch => prevMatch st
  | CallClearAllMatches => clearAllMatches st
  | CallClearPageMatches pg => clearPageMatches pg st
  | CallSetQuery q => setQuery q st
  end.

Definition is_setMatchRects (c : StoreCall) : bool :=
  match c with CallSetMatchRects _ _ => true | _ => false end.

(** [matchStore] after a sequence of calls from its initial state. *)
Definition run_calls (cs : list StoreCall) : StoreState :=
  fold_left (fun st c => apply_call c st) cs initial_store.

(** The active index is -1 or the index of a match. *)
Definition index_valid (st : StoreState) : Prop :=
  activeIndex st = (-1)%Z \/ (0 <= activeIndex st < getTotalMatches st)%Z.

(** The page keys are strictly ascending (a JavaScript object has each
    key once and enumerates integer keys in ascending order). *)
Definition pages_sorted (st : StoreState) : Prop :=
  StronglySorted N.lt (map fst (matchRectsByPage st)).

(** The entries of the pages below and above [pg]. *)
Definition pages_before (m : PageMap) (pg : N) : PageMap :=
  filter (fun kv => N.ltb (fst kv) pg) m.
Definition pages_after (m : PageMap) (pg : N) : PageMap :=
  filter (fun kv => N.ltb pg (fst kv)) m.

End Store.


(* ------------------------------------------------------------------ *)
(** ** Renderer and search controller
      (src/unnamed/part_010 renderer.ts, src/src/modules/controller/controller.ts) *)

Module Controller.

Import Projector Tokenizer Matcher Store.

(** [interface PageProcessingState] *)
Record PageProcessingState := mkPS {
  isProcessing : bool;
  isProcessed : bool;
  lastQuery : list ascii
}.

(** [getPageState]'s default. *)
Definition default_ps : PageProcessingState := mkPS false false [].

(** The text element of a page: its [textContent] and [id]. *)
Record Element := mkElement {
  textContent : list ascii;
  el_id : option (list ascii)
}.

(** The controller's fields, the singleton store, and the contents of each
    page's highlight layer (the rectangles painted and their active flag). *)
Record CtrlState := mkCtrl {
  store : StoreState;
  pageStates : N -> option PageProcessingState;
  globalMatchOrder : Z;
  layers : N -> list (CssRect * bool)
}.

Definition update_fn {A : Type} (f : N -> A) (k : N) (v : A) : N -> A :=
  fun k' => if N.eqb k' k then v else f k'.

Definition set_store (s : CtrlState) (st : StoreState) : CtrlState :=
  mkCtrl st (pageStates s) (globalMatchOrder s) (layers s).
Definition set_pageStates (s : CtrlState) (ps : N -> option PageProcessingState) : CtrlState :=
  mkCtrl (store s) ps (globalMatchOrder s) (layers s).
Definition set_order (s : CtrlState) (o : Z) : CtrlState :=
  mkCtrl (store s) (pageStates s) o (layers s).
Definition set_layers (s : CtrlState) (l : N -> list (CssRect * bool)) : CtrlState :=
  mkCtrl (store s) (pageStates s) (globalMatchOrder s) l.

(** A thrown JavaScript value. *)
Inductive Exn := JsError (message : list ascii).

(** State and exception monad: a throw keeps the state reached so far. *)
Definition M (A : Type) : Type := CtrlState -> CtrlState * (Exn + A).

Definition ret {A : Type} (a : A) : M A := fun s => (s, inr a).
Definition bind {A B : Type} (m : M A) (k : A -> M B) : M B :=
  fun s => match m s with
           | (s', inl e) => (s', inl e)
           | (s', inr a) => k a s'
           end.
Definition throw {A : Type} (e : Exn) : M A := fun s => (s, inl e).
Definition lift {A : Type} (r : Exn + A) : M A := fun s => (s, r).
Definition try_catch {A : Type} (m : M A) (h : Exn -> M A) : M A :=
  fun s => match m s with
           | (s', inl e) => h e s'
           | r => r
           end.
Definition modify (f : CtrlState -> CtrlState) : M unit := fun s => (f s, inr tt).
Definition gets {A : Type} (f : CtrlState -> A) : M A := fun s => (s, inr (f s)).

Notation "x <- m ;; k" := (bind m (fun x => k))
  (at level 61, m at next level, right associativity).

Definition is_nil {A : Type} (l : list A) : bool :=
  match l with [] => true | _ => false end.

(** [getPageState] / [setPageState] *)
Definition getPageState (pg : N) : M PageProcessingState :=
  gets (fun s => match pageStates s pg with Some ps => ps | None => default_ps end).

Definition setPageState (pg : N) (ps : PageProcessingState) : M unit :=
  modify (fun s => set_pageStates s (update_fn (pageStates s) pg (Some ps))).

(** [paintHighlights]: the layer is cleared, then one projected rectangle
    per [MatchRect], flagged active at [activeIndex]. *)
Definition paintHighlights (viewport : Viewport) (rects : list MatchRect)
    (activeIndex : Z) : list (CssRect * bool) :=
  map (fun ir => (pdfToCss (bboxPdf (snd ir)) viewport,
                  Z.eqb (Z.of_nat (fst ir)) activeIndex))
      (combine (seq 0 (List.length rects)) rects).

(** [set_active_at hs i b]: the [active] class of highlight [i] is set
    ([classList.add]) or removed ([classList.remove]). *)
Fixpoint set_active_at (hs : list (CssRect * bool)) (i : nat) (b : bool)
    : list (CssRect * bool) :=
  match hs, i with
  | [], _ => []
  | (c, _) :: hs', O => (c, b) :: hs'
  | h :: hs', S i' => h :: set_active_at hs' i' b
  end.

(** [updateActiveHighlight] on the highlights of a layer. *)
Definition updateActiveHighlight (highlights : list (CssRect * bool))
    (previousActiveIndex newActiveIndex : Z) : list (CssRect * bool) :=
  let n := Z.of_nat (List.length highlights) in
  let h1 := if Z.leb 0 previousActiveIndex && Z.ltb previousActiveIndex n
            then set_active_at highlights (Z.to_nat previousActiveIndex) false
            else highlights in
  if Z.leb 0 newActiveIndex && Z.ltb newActiveIndex n
  then set_active_at h1 (Z.to_nat newActiveIndex) true
  else h1.

(** The [visibleArea] argument of [getVisibleHighlights]. *)
Record VisibleArea := mkVisibleArea {
  va_left : R;
  va_top : R;
  va_width : R;
  va_height : R
}.

(** JavaScript's [<] on numbers. *)
Definition Rltb (x y : R) : bool := if Rlt_dec x y then true else false.

(** [getVisibleHighlights] ([left] is a constructor name in Rocq,
    hence [left']). *)
Definition getVisibleHighlights (rects : list MatchRect) (viewport : Viewport)
    (visibleArea : VisibleArea) : list MatchRect :=
  filter (fun rect =>
            let '(left', top, width, height) := pdfToCss (bboxPdf rect) viewport in
            negb (Rltb (left' + width) (va_left visibleArea) ||
                  Rltb (va_left visibleArea + va_width visibleArea) left' ||
                  Rltb (top + height) (va_top visibleArea) ||
                  Rltb (va_top visibleArea + va_height visibleArea) top))
         rects.

(** [Array.prototype.findIndex] *)
Fixpoint findIndex {A : Type} (p : A -> bool) (l : list A) : Z :=
  match l with
  | [] => (-1)%Z
  | x :: l' => if p x then 0%Z
               else let i := findIndex p l' in
                    if Z.eqb i (-1) then (-1)%Z else (i + 1)%Z
  end.

(** The layer painted by [renderPageHighlights]: the page's stored
    rectangles, with the active one located through [getPageMatches]. *)
Definition page_layer (pg : N) (viewport : Viewport) (st : StoreState)
    : list (CssRect * bool) :=
  let matchRects := getMatchRects pg st in
  let activeIdx :=
    match getActiveMatch st with
    | Some am =>
        if N.eqb (page am) pg
        then findIndex (fun m => Z.eqb (order (fst (fst m))) (order am))
                       (getPageMatches pg st)
        else (-1)%Z
    | None => (-1)%Z
    end in
  paintHighlights viewport matchRects activeIdx.

(** [renderPageHighlights] *)
Definition renderPageHighlights (pg : N) (viewport : Viewport) (s : CtrlState)
    : CtrlState :=
  set_layers s (update_fn (layers s) pg (page_layer pg viewport (store s))).

(** [clearPageResults] *)
Definition clearPageResults (pg : N) (s : CtrlState) : CtrlState :=
  mkCtrl (clearPageMatches pg (store s))
         (update_fn (pageStates s) pg (Some default_ps))
         (globalMatchOrder s)
         (update_fn (layers s) pg []).

(** Step 4 of [processPageSearch]: one [MatchRect] per (span, rectangle)
    pair, numbered by [this.globalMatchOrder++]. *)
Fixpoint build_rects (pg : N) (viewport : Viewport) (el : Element)
    (pairs : list (MatchSpan * CssRect)) : M (list MatchRect) :=
  match pairs with
  | [] => ret []
  | (span, cssRect) :: rest =>
      o <- gets globalMatchOrder ;;
      _ <- modify (fun s => set_order s (o + 1)%Z) ;;
      rs <- build_rects pg viewport el rest ;;
      ret (mkMatchRect pg (span_termId span) o (cssToPdf cssRect viewport) (el_id el) :: rs)
  end.

Section Pipeline.

(** The measurer [processPageSearch] calls. The statements about the
    controller hold for any measurer, one that throws included; the one of
    part_009 is [measure_dom] below, which never throws. *)
Variable measureSubstrings : Element -> list MatchSpan -> Exn + list CssRect.

(** The [try] block of [processPageSearch]: tokenize, match, measure,
    number, store, render, mark processed. *)
Definition search_pipeline (pg : N) (query : list ascii) (textElement : Element)
    (viewport : Viewport) : M unit :=
  let tokens := tokenize js_is_space (textContent textElement) in
  if is_nil tokens then modify (clearPageResults pg)
  else
    let matchSpans := findMatches tokens query in
    if is_nil matchSpans then modify (clearPageResults pg)
    else
      cssRects <- lift (measureSubstrings textElement matchSpans) ;;
      if is_nil cssRects then modify (clearPageResults pg)
      else
        matchRects <- build_rects pg viewport textElement
                        (combine matchSpans cssRects) ;;
        _ <- modify (fun s => set_store s (setMatchRects pg matchRects (store s))) ;;
        _ <- modify (fun s => renderPageHighlights pg viewport s) ;;
        setPageState pg (mkPS false true query).

(** [processPageSearch] *)
Definition processPageSearch (pg : N) (query : list ascii) (textElement : Element)
    (viewport : Viewport) : M unit :=
  if is_nil (trim query) then modify (clearPageResults pg)
  else
    pageState <- getPageState pg ;;
    if isProcessing pageState then ret tt
    else if isProcessed pageState && text_eqb (lastQuery pageState) query
    then modify (fun s => renderPageHighlights pg viewport s)
    else
      _ <- setPageState pg (mkPS true false query) ;;
      try_catch
        (search_pipeline pg query textElement viewport)
        (fun _ =>
           _ <- modify (clearPageResults pg) ;;
           setPageState pg (mkPS false false [])).

(** [needsProcessing] *)
Definition needsProcessing (s : CtrlState) (pg : N) (query : list ascii) : bool :=
  let ps := match pageStates s pg with Some ps => ps | None => default_ps end in
  negb (isProcessing ps) && (negb (isProcessed ps) || negb (text_eqb (lastQuery ps) query)).

(** Every call of a [Promise.all] batch runs (the async bodies contain no
    [await]); the batch fails with the first failure. *)
Fixpoint run_all (ms : list (M unit)) : M unit :=
  match ms with
  | [] => ret tt
  | m :: ms' =>
      fun s => match m s with
               | (s', inl e) => let '(s'', _) := run_all ms' s' in (s'', inl e)
               | (s', inr _) => run_all ms' s'
               end
  end.

(** [processBatchPages] *)
Definition processBatchPages (pages : list (N * Element)) (query : list ascii)
    (viewport : Viewport) : M unit :=
  fun s =>
    run_all (map (fun pe => processPageSearch (fst pe) query (snd pe) viewport)
                 (filter (fun pe => needsProcessing s (fst pe) query) pages)) s.

End Pipeline.

(** [measureSubstrings] of part_009. [measureSingleSubstring] is the layout
    read from the DOM: it tries the Range API, falls back to font metrics,
    and catches the errors of both, so it gives a rectangle or [null] and
    never throws. Spans measured as [null] are dropped. *)
Definition measure_dom
    (measureSingleSubstring : Element -> list ascii -> Z -> Z -> option CssRect)
    (element : Element) (spans : list MatchSpan) : Exn + list CssRect :=
  if is_nil spans then inr []
  else
    let text := textContent element in
    inr (flat_map (fun span =>
                     match measureSingleSubstring element text (span_start span) (span_end span) with
                     | Some rect => [rect]
                     | None => []
                     end) spans).

(** [startNewSearch] *)
Definition startNewSearch (query : list ascii) (s : CtrlState) : CtrlState :=
  mkCtrl (setQuery query (store s)) (fun _ => None) 0%Z (layers s).

(** [handleViewportChange] *)
Definition handleViewportChange (viewport : Viewport) (visiblePages : list N)
    (s : CtrlState) : CtrlState :=
  fold_left (fun s pg =>
               if is_nil (getMatchRects pg (store s)) then s
               else renderPageHighlights pg viewport s) visiblePages s.

Definition initial_ctrl : CtrlState :=
  mkCtrl initial_store (fun _ => None) 0%Z (fun _ => []).

(** A one-word text element. *)
Definition el_shall : Element := mkElement (str "shall") None.

(** Controller states and viewports of the witnesses. *)
Definition ctrl_pages_12 : CtrlState :=
  mkCtrl store_pages_12 (fun _ => None) 5%Z (fun _ => []).

Definition vp_zoom2 : Viewport := mkViewport 1224 1584 2 0.

(** A session that has searched "x" (3 matches on page 1, counter at 3). *)
Definition ctrl_searched_x : CtrlState :=
  mkCtrl (setMatchRects 1 [sample_rect 1 0; sample_rect 1 1; sample_rect 1 2]
            (setQuery (str "x") initial_store))
         (fun pg => if N.eqb pg 1 then Some (mkPS false true (str "x")) else None)
         3%Z (fun _ => []).

(** The controller state of page [q] (its stored rectangles, processing
    state and highlight layer) is the same in [s] and [s']. *)
Definition page_unchanged (q : N) (s s' : CtrlState) : Prop :=
  getMatchRects q (store s') = getMatchRects q (store s) /\
  pageStates s' q = pageStates s q /\ layers s' q = layers s q.

(** A measurer that lays out one 10x10 box per span. *)
Definition measure_boxes : Element -> list MatchSpan -> Exn + list CssRect :=
  fun _ spans => inr (map (fun _ => (0, 0, 10, 10)%R) spans).

End Controller.

(* ------------------------------------------------------------------ *)
(** ** Diagnostics (src/unnamed/part_010, diagnostics.ts) *)

Module Diagnostics.

Import Projector Store.

(** [interface AlignmentValidationResult]; [sampleRectDrift?] is an option. *)
Record AlignmentValidationResult := mkAlignmentResult {
  isValid : bool;
  maxDrift : R;
  cornerDrifts : list R;
  sampleRectDrift : option R;
  timestamp : R
}.

Definition Rleb (x y : R) : bool := if Rle_dec x y then true else false.

(** [validateAlignment]. [Date.now()] is the argument [timestamp]; painting
    the crosshairs on the debug layer is a DOM effect and is left out. The
    [try] block cannot throw here: every step is a total function. *)
Definition validateAlignment (viewport : Viewport) (sampleMatchRect : option MatchRect)
    (timestamp : R) : AlignmentValidationResult :=
  let crosshairRects := createValidationCrosshairs viewport in
  let expectedCorners :=
    [ mkPoint 0 (height viewport - 10);
      mkPoint (width viewport - 10) (height viewport - 10);
      mkPoint (width viewport - 10) 0;
      mkPoint 0 0 ] in
  let actualCorners := map (fun rect => let '(x, y, _, _) := rect in mkPoint x y) crosshairRects in
  let cornerDrifts :=
    map (fun ea => let '(expected, actual) := ea in
                   sqrt (pow (px expected - px actual) 2 + pow (py expected - py actual) 2))
        (combine expectedCorners actualCorners) in
  let maxDrift := Math_max cornerDrifts in
  let sampleRectDrift :=
    match sampleMatchRect with
    | None => None
    | Some m =>
        let '(left', top, w, h) := pdfToCss (bboxPdf m) viewport in
        let isWithinBounds :=
          Rleb 0 left' && Rleb 0 top && Rleb (left' + w) (width viewport) &&
          Rleb (top + h) (height viewport) in
        Some (if isWithinBounds then 0
              else Math_max [Math_max [0; - left']; Math_max [0; - top];
                             Math_max [0; left' + w - width viewport];
                             Math_max [0; top + h - height viewport]])
    end in
  let isValid := Rleb maxDrift 1 &&
                 match sampleRectDrift with None => true | Some d => Rleb d 1 end in
  mkAlignmentResult isValid maxDrift cornerDrifts sampleRectDrift timestamp.

(** A letter page rotated by 180 degrees. *)
Definition vp_letter_180 : Viewport := mkViewport 612 792 1 180.

End Diagnostics.

(* ------------------------------------------------------------------ *)
(** ** Performance tracker (src/unnamed/part_010, [class PerformanceTracker]) *)

Module Performance.

(** [interface PerformanceMetrics]. *)
Record PerformanceMetrics := mkMetrics {
  pagesProcessed : R;
  totalMatches : R;
  averageMatchesPerPage : R;
  processingTimeMs : R;
  renderTimeMs : R;
  lastUpdateTime : R
}.

Record PerformanceTracker := mkTracker {
  metrics : PerformanceMetrics;
  processingStartTime : R;
  renderStartTime : R
}.

Definition fresh_metrics (dateNow : R) : PerformanceMetrics :=
  mkMetrics 0 0 0 0 0 dateNow.

Definition new_tracker (dateNow : R) : PerformanceTracker :=
  mkTracker (fresh_metrics dateNow) 0 0.

Definition startProcessing (now : R) (tr : PerformanceTracker) : PerformanceTracker :=
  mkTracker (metrics tr) now (renderStartTime tr).

Definition endProcessing (pageNumber matchCount now dateNow : R) (tr : PerformanceTracker)
    : PerformanceTracker :=
  let processingTime := now - processingStartTime tr in
  let m := metrics tr in
  let pages := pagesProcessed m + 1 in
  let total := totalMatches m + matchCount in
  mkTracker (mkMetrics pages total (total / pages) (processingTimeMs m + processingTime)
                       (renderTimeMs m) dateNow)
            (processingStartTime tr) (renderStartTime tr).

Definition startRender (now : R) (tr : PerformanceTracker) : PerformanceTracker :=
  mkTracker (metrics tr) (processingStartTime tr) now.

Definition endRender (now : R) (tr : PerformanceTracker) : PerformanceTracker :=
  let renderTime := now - renderStartTime tr in
  let m := metrics tr in
  mkTracker (mkMetrics (pagesProcessed m) (totalMatches m) (averageMatchesPerPage m)
                       (processingTimeMs m) (renderTimeMs m + renderTime) (lastUpdateTime m))
            (processingStartTime tr) (renderStartTime tr).

Definition getMetrics (tr : PerformanceTracker) : PerformanceMetrics := metrics tr.

Definition reset (dateNow : R) (tr : PerformanceTracker) : PerformanceTracker :=
  mkTracker (fresh_metrics dateNow) (processingStartTime tr) (renderStartTime tr).

Inductive TrackerCall :=
| CallStartProcessing (now : R)
| CallEndProcessing (pageNumber matchCount now dateNow : R)
| CallStartRender (now : R)
| CallEndRender (now : R)
| CallReset (dateNow : R).

Definition apply_tracker_call (c : TrackerCall) (tr : PerformanceTracker) : PerformanceTracker :=
  match c with
  | CallStartProcessing now => startProcessing now tr
  | CallEndProcessing pg k now dn => endProcessing pg k now dn tr
  | CallStartRender now => startRender now tr
  | CallEndRender now => endRender now tr
  | CallReset dn => reset dn tr
  end.

Definition run_tracker (dateNow : R) (cs : list TrackerCall) : PerformanceTracker :=
  fold_left (fun tr c => apply_tracker_call c tr) cs (new_tracker dateNow).

(** The match counts passed to [endProcessing] since the last [reset]. *)
Definition count_step (acc : list R) (c : TrackerCall) : list R :=
  match c with
  | CallReset _ => []
  | CallEndProcessing _ k _ _ => acc ++ [k]
  | _ => acc
  end.

Definition counts_since_reset (cs : list TrackerCall) : list R :=
  fold_left count_step cs [].

(** The [performance.now()] reading a call takes, if any. *)
Definition call_now (c : TrackerCall) : option R :=
  match c with
  | CallStartProcessing now | CallEndProcessing _ _ now _
  | CallStartRender now | CallEndRender now => Some now
  | CallReset _ => None
  end.

(** The [performance.now()] readings along the calls never decrease, starting from [t]. *)
Fixpoint clock_monotone (t : R) (cs : list TrackerCall) : Prop :=
  match cs with
  | [] => True
  | c :: cs' =>
      match call_now c with
      | Some now => t <= now /\ clock_monotone now cs'
      | None => clock_monotone t cs'
      end
  end.

(** The metrics agree with the match counts [ks] of the pages processed. *)
Definition metrics_inv (m : PerformanceMetrics) (ks : list R) : Prop :=
  pagesProcessed m = INR (List.length ks) /\
  totalMatches m = fold_right Rplus 0 ks /\
  averageMatchesPerPage m * pagesProcessed m = totalMatches m.

(** Both time accumulators are non-negative and both start times are at most [t]. *)
Definition times_inv (t : R) (tr : PerformanceTracker) : Prop :=
  0 <= processingTimeMs (metrics tr) /\ 0 <= renderTimeMs (metrics tr) /\
  processingStartTime tr <= t /\ renderStartTime tr <= t.

End Performance.


(* ------------------------------------------------------------------ *)
(** * Proofs *)

(* ------------------------------------------------------------------ *)
(** ** Projector *)

Module ProjectorFacts.

Import Projector.

(** ** Lemmas on the helpers *)

Lemma min4_eq (a b c d m : R) :
  m <= a -> m <= b -> m <= c -> m <= d ->
  (m = a \/ m = b \/ m = c \/ m = d) ->
  Math_min [a; b; c; d] = m.
Proof.
  intros Ha Hb Hc Hd Hm; simpl; unfold Rmin.
  repeat (destruct Rle_dec); lra.
Qed.

Lemma max4_eq (a b c d m : R) :
  a <= m -> b <= m -> c <= m -> d <= m ->
  (m = a \/ m = b \/ m = c \/ m = d) ->
  Math_max [a; b; c; d] = m.
Proof.
  intros Ha Hb Hc Hd Hm; simpl; unfold Rmax.
  repeat (destruct Rle_dec); lra.
Qed.

Lemma deg_rad (k : R) : k * PI / 180 = (k / 90) * (PI / 2).
Proof. field. Qed.

Lemma cos_sin_90 : cos (IZR 90 * PI / 180) = 0 /\ sin (IZR 90 * PI / 180) = 1.
Proof.
  rewrite deg_rad. replace (IZR 90 / 90) with 1 by (simpl; field).
  rewrite Rmult_1_l. split; [apply cos_PI2 | apply sin_PI2].
Qed.

Lemma cos_sin_180 : cos (IZR 180 * PI / 180) = -1 /\ sin (IZR 180 * PI / 180) = 0.
Proof.
  replace (IZR 180 * PI / 180) with PI by (simpl; field).
  split; [apply cos_PI | apply sin_PI].
Qed.

Lemma cos_sin_270 : cos (IZR 270 * PI / 180) = 0 /\ sin (IZR 270 * PI / 180) = -1.
Proof.
  replace (IZR 270 * PI / 180) with (PI / 2 + PI) by (simpl; field).
  rewrite neg_cos, neg_sin, cos_PI2, sin_PI2. lra.
Qed.

Lemma cos_sin_opp (k : Z) :
  cos (IZR (- k) * PI / 180) = cos (IZR k * PI / 180) /\
  sin (IZR (- k) * PI / 180) = - sin (IZR k * PI / 180).
Proof.
  rewrite opp_IZR.
  replace (- IZR k * PI / 180) with (- (IZR k * PI / 180)) by field.
  rewrite cos_neg, sin_neg. lra.
Qed.

Ltac rot_tac lem :=
  unfold rotatePoint; destruct lem as [Hc Hs]; rewrite Hc, Hs; f_equal; ring.

Lemma rotatePoint_90 (p : Point) (cx cy : R) :
  rotatePoint p (IZR 90) cx cy = mkPoint (cx - (py p - cy)) (cy + (px p - cx)).
Proof. rot_tac cos_sin_90. Qed.

Lemma rotatePoint_180 (p : Point) (cx cy : R) :
  rotatePoint p (IZR 180) cx cy = mkPoint (cx - (px p - cx)) (cy - (py p - cy)).
Proof. rot_tac cos_sin_180. Qed.

Lemma rotatePoint_270 (p : Point) (cx cy : R) :
  rotatePoint p (IZR 270) cx cy = mkPoint (cx + (py p - cy)) (cy - (px p - cx)).
Proof. rot_tac cos_sin_270. Qed.

Lemma rotatePoint_opp (p : Point) (k : Z) (cx cy : R) :
  rotatePoint p (IZR (- k)) cx cy =
  let angleRad := (IZR k * PI) / 180 in
  mkPoint ((px p - cx) * cos angleRad + (py p - cy) * sin angleRad + cx)
          (- ((px p - cx) * sin angleRad) + (py p - cy) * cos angleRad + cy).
Proof.
  unfold rotatePoint. destruct (cos_sin_opp k) as [Hc Hs].
  rewrite Hc, Hs. f_equal; ring.
Qed.

Lemma rotatePoint_m90 (p : Point) (cx cy : R) :
  rotatePoint p (IZR (Z.opp 90)) cx cy = mkPoint (cx + (py p - cy)) (cy - (px p - cx)).
Proof.
  rewrite rotatePoint_opp. destruct cos_sin_90 as [Hc Hs]. cbv zeta.
  rewrite Hc, Hs. f_equal; ring.
Qed.

Lemma rotatePoint_m180 (p : Point) (cx cy : R) :
  rotatePoint p (IZR (Z.opp 180)) cx cy = mkPoint (cx - (px p - cx)) (cy - (py p - cy)).
Proof.
  rewrite rotatePoint_opp. destruct cos_sin_180 as [Hc Hs]. cbv zeta.
  rewrite Hc, Hs. f_equal; ring.
Qed.

Lemma rotatePoint_m270 (p : Point) (cx cy : R) :
  rotatePoint p (IZR (Z.opp 270)) cx cy = mkPoint (cx - (py p - cy)) (cy + (px p - cx)).
Proof.
  rewrite rotatePoint_opp. destruct cos_sin_270 as [Hc Hs]. cbv zeta.
  rewrite Hc, Hs. f_equal; ring.
Qed.

Ltac solve_in4 :=
  first [ left; reflexivity | right; left; reflexivity
        | right; right; left; reflexivity | right; right; right; reflexivity ].

Ltac bbox_step :=
  match goal with
  | |- context [Math_min [?a; ?b; ?c; ?d]] =>
      first [ rewrite (min4_eq a b c d a) by (first [lra | solve_in4])
            | rewrite (min4_eq a b c d b) by (first [lra | solve_in4])
            | rewrite (min4_eq a b c d c) by (first [lra | solve_in4])
            | rewrite (min4_eq a b c d d) by (first [lra | solve_in4]) ]
  | |- context [Math_max [?a; ?b; ?c; ?d]] =>
      first [ rewrite (max4_eq a b c d a) by (first [lra | solve_in4])
            | rewrite (max4_eq a b c d b) by (first [lra | solve_in4])
            | rewrite (max4_eq a b c d c) by (first [lra | solve_in4])
            | rewrite (max4_eq a b c d d) by (first [lra | solve_in4]) ]
  end.

Ltac roundtrip_case rotL rotR Hm Ht :=
  unfold pdfToCss, getRectangleCorners; cbn [rotation Z.eqb];
  cbv zeta; cbn [map px py];
  rewrite !rotL; cbn [px py];
  repeat bbox_step;
  unfold cssToPdf, getRectangleCorners; cbn [rotation Z.eqb];
  cbv zeta; rewrite ?Hm, ?Ht; cbn [map px py];
  rewrite !rotR; cbn [px py];
  repeat bbox_step;
  f_equal; [f_equal; [f_equal|] |]; ring.

(** Exact inverse property in real arithmetic. *)
Lemma cssToPdf_pdfToCss_exact (x y w h : R) (vp : Viewport) :
  scale vp <> 0 ->
  (rotation vp = 0 \/ rotation vp = 90 \/ rotation vp = 180 \/ rotation vp = 270)%Z ->
  0 <= w -> 0 <= h ->
  cssToPdf (pdfToCss (x, y, w, h) vp) vp = (x, y, w, h).
Proof.
  destruct vp as [W H s rot]; cbn [scale rotation width height].
  intros Hs Hrot Hw Hh.
  assert (Hm : forall a, a * s / s = a) by (intros; field; exact Hs).
  assert (Ht : forall b, (H - (H - b * s)) / s = b) by (intros; field; exact Hs).
  set (cx := W / (2 * s)); set (cy := H / (2 * s)).
  destruct Hrot as [-> | [-> | [-> | ->]]].
  - unfold pdfToCss, cssToPdf; cbn [rotation Z.eqb].
    f_equal; [f_equal; [f_equal|] |]; field; exact Hs.
  - roundtrip_case rotatePoint_90 rotatePoint_m90 Hm Ht.
  - roundtrip_case rotatePoint_180 rotatePoint_m180 Hm Ht.
  - roundtrip_case rotatePoint_270 rotatePoint_m270 Hm Ht.
Qed.

(** C1: for a rectangle [(x, y, w, h)] (non-negative width and height) and a
    viewport of scale in [[0.25, 4]] and rotation in {0, 90, 180, 270},
    [cssToPdf (pdfToCss r vp) vp] equals [r] component-wise within 0.5. *)
Theorem pdfToCss_cssToPdf_roundtrip (x y w h : R) (vp : Viewport) :
  1 / 4 <= scale vp <= 4 ->
  (rotation vp = 0 \/ rotation vp = 90 \/ rotation vp = 180 \/ rotation vp = 270)%Z ->
  0 <= w -> 0 <= h ->
  within (1 / 2) (cssToPdf (pdfToCss (x, y, w, h) vp) vp) (x, y, w, h).
Proof.
  intros Hs Hrot Hw Hh.
  rewrite cssToPdf_pdfToCss_exact by (auto; lra).
  unfold within. rewrite !Rminus_diag, Rabs_R0. lra.
Qed.

Lemma pdfToCss_cssToPdf_roundtrip_witness :
  within (1 / 2) (cssToPdf (pdfToCss (10, 10, 100, 50) vp_rot90) vp_rot90) (10, 10, 100, 50).
Proof.
  apply pdfToCss_cssToPdf_roundtrip; unfold vp_rot90; cbn [scale rotation].
  - lra.
  - right; left; reflexivity.
  - lra.
  - lra.
Defined.

(** C8: at rotation 0, a rectangle at document-y 0 projects to screen-top
    [vp.height - h*scale], one at document-y [vp.height/scale - h] projects
    to screen-top 0, and both conversions of y depend on [vp.height]:
    raising the height by [d] moves the screen top by [d] and the document
    y by [d / scale]. *)
Theorem pdfToCss_y_inversion (vp : Viewport) (x w h : R) :
  rotation vp = 0%Z -> scale vp <> 0 ->
  css_top (pdfToCss (x, 0, w, h) vp) = height vp - h * scale vp /\
  css_top (pdfToCss (x, height vp / scale vp - h, w, h) vp) = 0 /\
  (forall y d, css_top (pdfToCss (x, y, w, h) (with_height vp (height vp + d))) =
               css_top (pdfToCss (x, y, w, h) vp) + d) /\
  (forall l t ww hh d, pdf_y (cssToPdf (l, t, ww, hh) (with_height vp (height vp + d))) =
                       pdf_y (cssToPdf (l, t, ww, hh) vp) + d / scale vp).
Proof.
  intros Hrot Hs.
  unfold pdfToCss, cssToPdf, with_height, css_top, pdf_y; cbn [rotation height scale].
  rewrite Hrot; cbn [Z.eqb].
  repeat split.
  - ring.
  - field; exact Hs.
  - intros; ring.
  - intros; field; exact Hs.
Qed.

Lemma pdfToCss_y_inversion_witness :
  css_top (pdfToCss (72, 0, 100, 12) vp_letter) = height vp_letter - 12 * scale vp_letter /\
  css_top (pdfToCss (72, height vp_letter / scale vp_letter - 12, 100, 12) vp_letter) = 0 /\
  (forall y d, css_top (pdfToCss (72, y, 100, 12) (with_height vp_letter (height vp_letter + d))) =
               css_top (pdfToCss (72, y, 100, 12) vp_letter) + d) /\
  (forall l t ww hh d, pdf_y (cssToPdf (l, t, ww, hh) (with_height vp_letter (height vp_letter + d))) =
                       pdf_y (cssToPdf (l, t, ww, hh) vp_letter) + d / scale vp_letter).
Proof.
  apply pdfToCss_y_inversion; unfold vp_letter; cbn [scale rotation].
  - reflexivity.
  - lra.
Defined.

(** Extra: a projected rectangle of non-negative size [w] x [h] is [w*s] x [h*s]
    at rotations 0 and 180, and [h*s] x [w*s] at rotations 90 and 270. *)
Theorem pdfToCss_size (x y w h : R) (vp : Viewport) :
  0 <= w -> 0 <= h ->
  ((rotation vp = 0 \/ rotation vp = 180)%Z ->
     rect_width (pdfToCss (x, y, w, h) vp) = w * scale vp /\
     rect_height (pdfToCss (x, y, w, h) vp) = h * scale vp) /\
  ((rotation vp = 90 \/ rotation vp = 270)%Z ->
     rect_width (pdfToCss (x, y, w, h) vp) = h * scale vp /\
     rect_height (pdfToCss (x, y, w, h) vp) = w * scale vp).
Proof.
  destruct vp as [W H s rot]; cbn [scale rotation width height].
  intros Hw Hh. set (cx := W / (2 * s)); set (cy := H / (2 * s)).
  split; intros [-> | ->]; unfold pdfToCss, getRectangleCorners; cbn [rotation Z.eqb];
    [cbn; split; reflexivity| | |];
    cbv zeta; cbn [map px py];
    rewrite ?rotatePoint_90, ?rotatePoint_180, ?rotatePoint_270; cbn [px py];
    repeat bbox_step; cbn [rect_width rect_height width height scale]; split; ring.
Qed.

(** At rotation 0 the four validation crosshairs sit exactly at the canvas corners. *)
Lemma crosshairs_rot0 (vp : Viewport) :
  rotation vp = 0%Z -> scale vp <> 0 ->
  createValidationCrosshairs vp =
  [ (0, height vp - 10, 10, 10); (width vp - 10, height vp - 10, 10, 10);
    (width vp - 10, 0, 10, 10); (0, 0, 10, 10) ].
Proof.
  destruct vp as [W H s rot]; cbn [scale rotation width height]. intros -> Hs.
  unfold createValidationCrosshairs, pdfToCss; cbn [map rotation Z.eqb scale height width].
  f_equal; [|f_equal; [|f_equal; [|f_equal]]]; (f_equal; [f_equal; [f_equal|]|]); field; exact Hs.
Qed.

(** At rotation 180 each crosshair lands at the opposite canvas corner. *)
Lemma crosshairs_rot180 (vp : Viewport) :
  rotation vp = 180%Z -> 0 < scale vp ->
  createValidationCrosshairs vp =
  [ (width vp - 10, 0, 10, 10); (0, 0, 10, 10);
    (0, height vp - 10, 10, 10); (width vp - 10, height vp - 10, 10, 10) ].
Proof.
  destruct vp as [W H s rot]; cbn [scale rotation width height]. intros -> Hs.
  assert (Hc : 0 < 10 / s) by (apply Rdiv_lt_0_compat; lra).
  unfold createValidationCrosshairs, pdfToCss, getRectangleCorners; cbn [map rotation Z.eqb scale height width].
  cbv zeta. cbn [map px py]. rewrite !rotatePoint_180. cbn [px py].
  repeat bbox_step.
  assert (Hs' : s <> 0) by lra.
  f_equal; [|f_equal; [|f_equal; [|f_equal]]]; (f_equal; [f_equal; [f_equal|]|]); field; exact Hs'.
Qed.

Lemma pdfToCss_size_witness :
  rect_width (pdfToCss (1, 2, 5, 8) vp_rot90) = 8 * scale vp_rot90 /\
  rect_height (pdfToCss (1, 2, 5, 8) vp_rot90) = 5 * scale vp_rot90.
Proof.
  apply (proj2 (pdfToCss_size 1 2 5 8 vp_rot90 ltac:(lra) ltac:(lra))).
  left; reflexivity.
Defined.

End ProjectorFacts.

(* ------------------------------------------------------------------ *)
(** ** Tokenizer *)

Module TokenizerFacts.

Import Tokenizer.
Open Scope nat_scope.

Example tokenize_example :
  map (fun t => (string_of_list_ascii (tok_text t), startIndex t, endIndex t))
      (tokenize js_is_space (str " ab  c"))
  = [(" "%string, 0, 1); ("ab"%string, 1, 3); ("  "%string, 3, 5); ("c"%string, 5, 6)].
Proof. reflexivity. Qed.

Section TokenizeFacts.

Variable C : Type.
Variable is_space : C -> bool.

Lemma run_le (p : C -> bool) (l : list C) : run p l <= List.length l.
Proof. induction l as [|c l IH]; simpl; [lia|]. destruct (p c); lia. Qed.

Lemma run_ext (p q : C -> bool) (l : list C) :
  (forall c, p c = q c) -> run p l = run q l.
Proof. intros Hpq; induction l as [|c l IH]; simpl; [reflexivity|]. now rewrite Hpq, IH. Qed.

Lemma run_nth (p : C -> bool) (l : list C) (k : nat) :
  k < run p l -> exists c, nth_error l k = Some c /\ p c = true.
Proof.
  revert k; induction l as [|c l IH]; intros k Hk; simpl in Hk; [lia|].
  destruct (p c) eqn:Hc; [|lia].
  destruct k as [|k]; simpl; [eauto|]. apply IH; lia.
Qed.

Lemma run_stop (p : C -> bool) (l : list C) :
  run p l < List.length l -> exists c, nth_error l (run p l) = Some c /\ p c = false.
Proof.
  induction l as [|c l IH]; simpl; intros Hlt; [lia|].
  destruct (p c) eqn:Hc; simpl; [apply IH; lia | eauto].
Qed.

Lemma forallb_firstn_run (p : C -> bool) (l : list C) :
  forallb p (firstn (run p l) l) = true.
Proof.
  induction l as [|c l IH]; simpl; [reflexivity|].
  destruct (p c) eqn:Hc; simpl; [rewrite Hc, IH; reflexivity | reflexivity].
Qed.

Lemma skipn_nth_error (s : list C) (i : nat) (c : C) :
  nth_error s i = Some c -> exists rest, skipn i s = c :: rest.
Proof.
  revert i; induction s as [|d s IH]; intros [|i] H; simpl in *; try discriminate.
  - injection H as ->; eauto.
  - auto.
Qed.

Lemma match_alt_at (s : list C) (i : nat) (c : C) :
  nth_error s i = Some c ->
  match_alt is_space s i = Some (run (same_class is_space (is_space c)) (skipn i s)).
Proof.
  intros Hc. destruct (skipn_nth_error s i c Hc) as [rest Hr].
  unfold match_alt. rewrite Hr.
  destruct (is_space c) eqn:Hsp.
  - rewrite (run_ext (same_class is_space true) is_space)
      by (intros d; unfold same_class; destruct (is_space d); reflexivity).
    cbn [run]. rewrite Hsp. reflexivity.
  - unfold same_class. cbn [run]. rewrite Hsp. reflexivity.
Qed.

Lemma match_alt_end (s : list C) (i : nat) :
  List.length s <= i -> match_alt is_space s i = None.
Proof. intros Hi. unfold match_alt. rewrite skipn_all2 by exact Hi. reflexivity. Qed.

Lemma search_end (s : list C) (i f : nat) :
  List.length s <= i -> search is_space s i f = None.
Proof.
  revert i; induction f as [|f IH]; intros i Hi; simpl; [reflexivity|].
  rewrite match_alt_end by exact Hi. apply IH; lia.
Qed.

Lemma tokenize_loop_ok (s : list C) (f i : nat) :
  i <= List.length s -> List.length s - i < f -> boundary is_space s i ->
  covers s i (tokenize_loop is_space s i f) /\
  Forall (maximal_run is_space s) (tokenize_loop is_space s i f).
Proof.
  revert i; induction f as [|f IH]; intros i Hle Hf Hb; [lia|].
  cbn [tokenize_loop].
  destruct (Nat.eq_dec i (List.length s)) as [Heq | Hne].
  - unfold regex_exec. rewrite (proj2 (Nat.ltb_ge _ _)) by lia.
    rewrite search_end by lia. split; [exact Heq | constructor].
  - assert (Hlt : i < List.length s) by lia.
    destruct (nth_error s i) as [d|] eqn:Hd;
      [| apply nth_error_None in Hd; lia].
    set (n := run (same_class is_space (is_space d)) (skipn i s)).
    assert (Hex : regex_exec is_space s i = Some (i, n)).
    { unfold regex_exec. rewrite (proj2 (Nat.ltb_ge _ _)) by lia.
      replace (S (List.length s - i)) with (S (List.length s - i - 1 + 1)) by lia.
      cbn [search]. rewrite (match_alt_at s i d Hd). reflexivity. }
    rewrite Hex.
    destruct (skipn_nth_error s i d Hd) as [rest Hrest].
    assert (Hn1 : 1 <= n).
    { unfold n. rewrite Hrest. cbn [run]. unfold same_class.
      rewrite Bool.eqb_reflx. lia. }
    assert (Hn2 : n <= List.length s - i).
    { pose proof (run_le (same_class is_space (is_space d)) (skipn i s)) as H.
      rewrite List.length_skipn in H. exact H. }
    assert (Hlen : List.length (firstn n (skipn i s)) = n).
    { apply firstn_length_le. rewrite List.length_skipn. lia. }
    assert (Hb' : boundary is_space s (i + n)).
    { destruct (Nat.eq_dec (i + n) (List.length s)) as [E|E]; [right; left; exact E|].
      right; right.
      destruct (run_nth (same_class is_space (is_space d)) (skipn i s) (n - 1)) as [c [Hc Hcs]];
        [fold n; lia|].
      destruct (run_stop (same_class is_space (is_space d)) (skipn i s)) as [e [He Hes]];
        [rewrite List.length_skipn; fold n; lia|].
      fold n in He.
      rewrite nth_error_skipn in Hc, He.
      exists c, e. split; [replace (i + n - 1) with (i + (n - 1)) by lia; exact Hc|].
      split; [exact He|].
      unfold same_class in Hcs, Hes.
      destruct (is_space c), (is_space d), (is_space e); simpl in *; congruence. }
    destruct (IH (i + n)) as [Hcov Hmax]; [lia | lia | exact Hb' |].
    split.
    + cbn [covers startIndex endIndex tok_text]. rewrite Hlen.
      repeat split.
      * intros E. rewrite E in Hlen. simpl in Hlen. lia.
      * exact Hcov.
    + constructor; [|exact Hmax].
      exists (is_space d). cbn [tok_text startIndex endIndex]. rewrite Hlen.
      split; [apply forallb_firstn_run|]. split.
      * destruct Hb as [-> | [E | [c [d' [Hc [Hd' Hne']]]]]]; [left; reflexivity | lia |].
        right. rewrite Hd in Hd'. injection Hd' as <-. eauto.
      * destruct (Nat.eq_dec (i + n) (List.length s)) as [E|E]; [left; exact E|].
        right.
        destruct (run_stop (same_class is_space (is_space d)) (skipn i s)) as [e [He Hes]];
          [rewrite List.length_skipn; fold n; lia|].
        fold n in He. rewrite nth_error_skipn in He. exists e. split; [exact He|].
        unfold same_class in Hes. destruct (is_space e), (is_space d); simpl in *; congruence.
Qed.

Lemma covers_concat (s : list C) (ts : list (Token C)) (i : nat) :
  covers s i ts -> List.concat (map tok_text ts) = skipn i s.
Proof.
  revert i; induction ts as [|t ts IH]; intros i Hc; cbn [covers] in Hc.
  - simpl. rewrite skipn_all2 by lia. reflexivity.
  - destruct Hc as [Hs [Hne [He [Ht Hrest]]]].
    cbn [map List.concat]. rewrite (IH _ Hrest), He.
    rewrite Ht at 1. rewrite Nat.add_comm, <- skipn_skipn. apply firstn_skipn.
Qed.

End TokenizeFacts.

(** C9: for every input, the tokens of [tokenize] cover [[0, length)]
    contiguously without gaps or overlaps (each token the slice
    [s[start:end]]), their texts concatenate to the input, each token is a
    maximal run of one of the two classes (whitespace, non-whitespace), and
    the empty input gives no token.  This holds for any [\s] predicate on any
    code-unit type. *)
Theorem tokenize_lossless_partition (C : Type) (is_space : C -> bool) (s : list C) :
  List.concat (map tok_text (tokenize is_space s)) = s /\
  covers s 0 (tokenize is_space s) /\
  Forall (maximal_run is_space s) (tokenize is_space s) /\
  tokenize is_space [] = [].
Proof.
  destruct (tokenize_loop_ok C is_space s (S (List.length s)) 0) as [Hcov Hmax];
    [lia | lia | left; reflexivity |].
  unfold tokenize. split; [|split; [exact Hcov | split; [exact Hmax | reflexivity]]].
  rewrite (covers_concat C s _ 0 Hcov). reflexivity.
Qed.

Section TokenRanges.

Variable C : Type.
Variable is_space : C -> bool.

Lemma tokenize_covers (s : list C) :
  covers s 0 (tokenize is_space s) /\ List.concat (map tok_text (tokenize is_space s)) = s.
Proof.
  destruct (tokenize_loop_ok C is_space s (S (List.length s)) 0) as [Hcov _];
    [lia | lia | left; reflexivity |].
  unfold tokenize. split; [exact Hcov|]. rewrite (covers_concat C s _ 0 Hcov). reflexivity.
Qed.

Lemma covers_bounds (s : list C) (i : nat) (ts : list (Token C)) :
  covers s i ts ->
  i <= List.length s /\
  forall t, In t ts -> i <= startIndex t /\ startIndex t < endIndex t /\
                      endIndex t <= List.length s.
Proof.
  revert i; induction ts as [|t ts IH]; intros i Hc; cbn [covers] in Hc.
  - split; [lia | intros t []].
  - destruct Hc as [Hs [Hne [He [Ht Hrest]]]].
    assert (Hl : List.length (tok_text t) <= List.length s - i).
    { rewrite Ht at 1. rewrite List.length_firstn, List.length_skipn. lia. }
    destruct (tok_text t) as [|c cs] eqn:Etx; [congruence|].
    cbn [List.length] in *.
    destruct (IH _ Hrest) as [Hend Hall].
    split; [lia|]. intros t' [<-|Hin]; [lia|].
    specialize (Hall t' Hin). lia.
Qed.

Lemma covers_find (s : list C) (j : nat) (ts : list (Token C)) (i : nat) :
  covers s j ts -> j <= i < List.length s ->
  exists t, findTokenAtIndex ts (Z.of_nat i) = Some t /\ In t ts /\
            startIndex t <= i < endIndex t /\
            nth_error (tok_text t) (i - startIndex t) = nth_error s i.
Proof.
  revert j; induction ts as [|t ts IH]; intros j Hc Hi; cbn [covers] in Hc; [lia|].
  destruct Hc as [Hs [Hne [He [Ht Hrest]]]].
  cbn [findTokenAtIndex].
  destruct (Nat.ltb_spec i (endIndex t)) as [Hlt|Hge].
  - replace (Z.leb (Z.of_nat (startIndex t)) (Z.of_nat i) &&
             Z.ltb (Z.of_nat i) (Z.of_nat (endIndex t))) with true
      by (symmetry; apply andb_true_intro; split; [apply Z.leb_le | apply Z.ltb_lt]; lia).
    exists t. split; [reflexivity|]. split; [left; reflexivity|]. split; [lia|].
    rewrite Ht at 1. rewrite nth_error_firstn.
    replace (Nat.ltb (i - startIndex t) (List.length (tok_text t))) with true
      by (symmetry; apply Nat.ltb_lt; lia).
    rewrite nth_error_skipn. f_equal. lia.
  - replace (Z.ltb (Z.of_nat i) (Z.of_nat (endIndex t))) with false
      by (symmetry; apply Z.ltb_ge; lia).
    rewrite andb_false_r.
    destruct (IH (endIndex t) Hrest) as [t' [H1 [H2 H3]]]; [lia|].
    exists t'. split; [exact H1|]. split; [right; exact H2 | exact H3].
Qed.

Lemma covers_find_none (s : list C) (j : nat) (ts : list (Token C)) (i : Z) :
  covers s j ts -> (i < Z.of_nat j \/ Z.of_nat (List.length s) <= i)%Z ->
  findTokenAtIndex ts i = None.
Proof.
  intros Hc Hi. destruct (covers_bounds s j ts Hc) as [_ Hall]. clear Hc.
  induction ts as [|t ts IH]; [reflexivity|]. cbn [findTokenAtIndex].
  destruct (Hall t (or_introl eq_refl)) as [H1 [H2 H3]].
  replace (Z.leb (Z.of_nat (startIndex t)) i && Z.ltb i (Z.of_nat (endIndex t))) with false.
  - apply IH. intros t' Hin. apply Hall. right. exact Hin.
  - symmetry. destruct Hi as [Hi|Hi].
    + apply andb_false_intro1. apply Z.leb_gt. lia.
    + apply andb_false_intro2. apply Z.ltb_ge. lia.
Qed.

Lemma covers_positions (s : list C) (i : nat) (ts : list (Token C)) :
  covers s i ts ->
  forall k t, nth_error ts k = Some t ->
  startIndex t = i + List.length (List.concat (map tok_text (firstn k ts))) /\
  endIndex t = i + List.length (List.concat (map tok_text (firstn (S k) ts))).
Proof.
  revert i; induction ts as [|t0 ts IH]; intros i Hc k t Hk;
    [destruct k; discriminate Hk|].
  cbn [covers] in Hc. destruct Hc as [Hs [Hne [He [Ht Hrest]]]].
  destruct k as [|k]; cbn [nth_error] in Hk.
  - injection Hk as <-. cbn [firstn map List.concat].
    rewrite app_nil_r. cbn [List.length]. lia.
  - destruct (IH _ Hrest k t Hk) as [H1 H2].
    rewrite !firstn_cons. cbn [map List.concat]. rewrite !List.length_app. lia.
Qed.

Lemma firstn_add_split {A : Type} (a k : nat) (l : list A) :
  firstn (a + k) l = firstn a l ++ firstn k (skipn a l).
Proof.
  revert l; induction a as [|a IH]; intros l; [reflexivity|].
  destruct l as [|x l]; [rewrite !firstn_nil; reflexivity|].
  cbn [Nat.add firstn skipn]. rewrite IH. reflexivity.
Qed.

Lemma tokenize_maximal (s : list C) :
  Forall (maximal_run is_space s) (tokenize is_space s).
Proof.
  destruct (tokenize_loop_ok C is_space s (S (List.length s)) 0) as [_ Hmax];
    [lia | lia | left; reflexivity |].
  exact Hmax.
Qed.

Lemma covers_in (s : list C) (i : nat) (ts : list (Token C)) (t : Token C) :
  covers s i ts -> In t ts ->
  endIndex t = startIndex t + List.length (tok_text t) /\
  tok_text t = firstn (List.length (tok_text t)) (skipn (startIndex t) s).
Proof.
  revert i; induction ts as [|t0 ts IH]; intros i Hc Hin; [destruct Hin|].
  cbn [covers] in Hc. destruct Hc as [Hs [Hne [He [Ht Hrest]]]].
  destruct Hin as [<-|Hin].
  - rewrite Hs. split; [exact He | exact Ht].
  - exact (IH _ Hrest Hin).
Qed.

End TokenRanges.

(** [findTokenAtIndex] on the tokens of a text [s]: it returns [null]
    exactly when the index is negative or at least [s.length]; otherwise
    the token it returns is one of the tokens, contains the index, and its
    text holds the character [s[i]] at offset [i - startIndex]. *)
Theorem findTokenAtIndex_tokenize (C : Type) (is_space : C -> bool) (s : list C) (i : Z) :
  (findTokenAtIndex (tokenize is_space s) i = None <->
     (i < 0 \/ Z.of_nat (List.length s) <= i)%Z) /\
  (forall t, findTokenAtIndex (tokenize is_space s) i = Some t ->
     In t (tokenize is_space s) /\
     (Z.of_nat (startIndex t) <= i < Z.of_nat (endIndex t))%Z /\
     nth_error (tok_text t) (Z.to_nat i - startIndex t) = nth_error s (Z.to_nat i)).
Proof.
  destruct (tokenize_covers C is_space s) as [Hc _].
  destruct (Z_lt_le_dec i 0) as [Hneg|Hnn];
    [|destruct (Z_lt_le_dec i (Z.of_nat (List.length s))) as [Hin|Hout]].
  - rewrite (covers_find_none C s 0 _ i Hc) by lia.
    split; [split; [intros _; left; exact Hneg | reflexivity] | intros t Ht; discriminate Ht].
  - destruct (covers_find C s 0 _ (Z.to_nat i) Hc) as [t [Hf [Hint [Hr Hnth]]]]; [lia|].
    rewrite Z2Nat.id in Hf by exact Hnn. rewrite Hf.
    split; [split; [discriminate | lia]|].
    intros t' Ht'. injection Ht' as <-. split; [exact Hint|]. split; [lia | exact Hnth].
  - rewrite (covers_find_none C s 0 _ i Hc) by lia.
    split; [split; [intros _; right; exact Hout | reflexivity] | intros t Ht; discriminate Ht].
Qed.

(** [getTokenRangeText] on the tokens of a text: for token indices
    [0 <= a <= b < tokens.length] it returns the concatenated texts of the
    tokens [a] to [b]; for any other pair of indices it returns ''. *)
Theorem getTokenRangeText_tokenize (C : Type) (is_space : C -> bool) (s : list C) (a b : Z) :
  ((0 <= a <= b)%Z -> (b < Z.of_nat (List.length (tokenize is_space s)))%Z ->
   getTokenRangeText (tokenize is_space s) a b =
   List.concat (map tok_text (firstn (Z.to_nat b - Z.to_nat a + 1)
                                     (skipn (Z.to_nat a) (tokenize is_space s))))) /\
  ((a < 0 \/ b < a \/ Z.of_nat (List.length (tokenize is_space s)) <= b)%Z ->
   getTokenRangeText (tokenize is_space s) a b = []).
Proof.
  destruct (tokenize_covers C is_space s) as [Hc Hcat].
  set (ts := tokenize is_space s) in *.
  split.
  - intros Hab Hb. unfold getTokenRangeText.
    replace (Z.ltb a 0 || Z.leb (Z.of_nat (List.length ts)) b || Z.ltb b a) with false
      by (symmetry; rewrite !orb_false_iff; repeat split;
          [apply Z.ltb_ge | apply Z.leb_gt | apply Z.ltb_ge]; lia).
    set (A := Z.to_nat a). set (B := Z.to_nat b).
    destruct (nth_error ts A) as [ta|] eqn:Ea;
      [|apply nth_error_None in Ea; unfold A in Ea; lia].
    destruct (nth_error ts B) as [tb|] eqn:Eb;
      [|apply nth_error_None in Eb; unfold B in Eb; lia].
    destruct (covers_positions C s 0 ts Hc A ta Ea) as [Hsa _].
    destruct (covers_positions C s 0 ts Hc B tb Eb) as [_ Heb].
    set (Mid := List.concat (map tok_text (firstn (B - A + 1) (skipn A ts)))).
    set (P := List.concat (map tok_text (firstn A ts))).
    set (Rest := List.concat (map tok_text (skipn (B - A + 1) (skipn A ts)))).
    assert (Hs : s = P ++ Mid ++ Rest).
    { rewrite <- Hcat at 1. unfold P, Mid, Rest.
      rewrite <- (firstn_skipn A ts) at 1.
      rewrite <- (firstn_skipn (B - A + 1) (skipn A ts)) at 1.
      rewrite !map_app, !concat_app. reflexivity. }
    assert (HS : S B = A + (B - A + 1)) by (unfold A, B; lia).
    rewrite HS, firstn_add_split, map_app, concat_app, List.length_app in Heb.
    fold P Mid in Heb. fold P in Hsa.
    cbn [Nat.add] in Hsa, Heb.
    rewrite Hcat. unfold substring.
    assert (Hlen : List.length s = List.length P + List.length Mid + List.length Rest)
      by (rewrite Hs, !List.length_app; lia).
    rewrite Hsa, Heb.
    replace (Nat.min (List.length P) (List.length s)) with (List.length P) by lia.
    replace (Nat.min (List.length P + List.length Mid) (List.length s))
      with (List.length P + List.length Mid) by lia.
    replace (Nat.max (List.length P) (List.length P + List.length Mid) -
             Nat.min (List.length P) (List.length P + List.length Mid))
      with (List.length Mid) by lia.
    replace (Nat.min (List.length P) (List.length P + List.length Mid))
      with (List.length P) by lia.
    rewrite Hs. rewrite skipn_app, skipn_all, Nat.sub_diag, skipn_0. cbn [app].
    rewrite firstn_app, firstn_all, Nat.sub_diag, firstn_0, app_nil_r. reflexivity.
  - intros Hout. unfold getTokenRangeText.
    replace (Z.ltb a 0 || Z.leb (Z.of_nat (List.length ts)) b || Z.ltb b a) with true;
      [reflexivity|].
    symmetry. destruct Hout as [H|[H|H]].
    + rewrite (proj2 (Z.ltb_lt a 0) H). reflexivity.
    + rewrite (proj2 (Z.ltb_lt b a) H), orb_true_r. reflexivity.
    + rewrite (proj2 (Z.leb_le _ b) H), orb_true_r. reflexivity.
Qed.

End TokenizerFacts.

(* ------------------------------------------------------------------ *)
(** ** Matcher *)

Module MatcherFacts.

Import Tokenizer Matcher TokenizerFacts.
Open Scope nat_scope.

Example findMatches_example :
  map (fun m => (span_start m, span_end m))
      (findMatches (tokenize js_is_space (str "aXa xa")) (str "xA"))
  = [(1%Z, 3%Z); (4%Z, 6%Z)].
Proof. reflexivity. Qed.

(** C3 (defect): on the text [" shall"] the query ["shall"] occurs once in
    the normalized text and [findMatches] reports one span, but the span is
    [[0, 5)]: [T[0:5] = " shal"], which does not normalize to ["shall"].
    [normalizeText] trims the leading blank, so indices into the normalized
    text are one less than in the original, and [findOriginalIndex] maps
    them back without accounting for the trimmed prefix. *)
Theorem findMatches_leading_space_span :
  findMatches (tokenize js_is_space (str " shall")) (str "shall")
    = [mkSpan 0 5 (generateTermId (str "shall"))] /\
  count_occurrences (normalizeText (str " shall")) (normalizeText (str "shall")) = 1 /\
  slice (str " shall") 0 5 = str " shal" /\
  normalizeText (slice (str " shall") 0 5) <> normalizeText (str "shall").
Proof.
  split; [reflexivity|]. split; [reflexivity|]. split; [reflexivity|].
  vm_compute. discriminate.
Qed.

(** ** Helpers on text normalisation and search *)

Lemma lower_space (c : ascii) : js_is_space (lower c) = js_is_space c.
Proof. destruct c as [[] [] [] [] [] [] [] []]; reflexivity. Qed.

Lemma trim_start_nospace (l : list ascii) :
  Forall (fun c => js_is_space c = false) l -> trim_start l = l.
Proof. intros H. destruct l as [|c l]; [reflexivity|]. inversion H; subst. cbn. rewrite H2. reflexivity. Qed.

Lemma trim_nospace (l : list ascii) :
  Forall (fun c => js_is_space c = false) l -> trim l = l.
Proof.
  intros H. unfold trim. rewrite (trim_start_nospace l H).
  rewrite (trim_start_nospace (rev l)) by (apply Forall_rev; exact H).
  apply rev_involutive.
Qed.

Lemma trim_start_allspace (l : list ascii) :
  Forall (fun c => js_is_space c = true) l -> trim_start l = [].
Proof. induction 1 as [|c l Hc _ IH]; [reflexivity|]. cbn. rewrite Hc. exact IH. Qed.

Lemma trim_allspace (l : list ascii) :
  Forall (fun c => js_is_space c = true) l -> trim l = [].
Proof. intros H. unfold trim. rewrite (trim_start_allspace l H). reflexivity. Qed.

Lemma normalizeText_nospace (l : list ascii) :
  Forall (fun c => js_is_space c = false) l -> normalizeText l = map lower l.
Proof.
  intros H. unfold normalizeText, nfkc. apply trim_nospace.
  apply Forall_map. eapply Forall_impl; [|exact H]. intros c Hc. rewrite lower_space. exact Hc.
Qed.

(** A token of [tokenize] is a maximal run of white space or of other
    characters. *)
Lemma token_classes (s : list ascii) (t : Token ascii) :
  In t (tokenize js_is_space s) ->
  Forall (fun c => js_is_space c = true) (tok_text t) \/
  (Forall (fun c => js_is_space c = false) (tok_text t) /\
   (startIndex t = 0 \/
      exists c, nth_error s (startIndex t - 1) = Some c /\ js_is_space c = true) /\
   (endIndex t = List.length s \/
      exists c, nth_error s (endIndex t) = Some c /\ js_is_space c = true)).
Proof.
  intros Hin. pose proof (tokenize_maximal ascii js_is_space s) as Hm.
  rewrite Forall_forall in Hm. destruct (Hm t Hin) as [b [Hall [Hl Hr]]].
  rewrite forallb_forall in Hall.
  destruct b; [left | right].
  - apply Forall_forall. intros c Hc. specialize (Hall c Hc).
    destruct (js_is_space c); [reflexivity | discriminate Hall].
  - split; [apply Forall_forall; intros c Hc; specialize (Hall c Hc);
            destruct (js_is_space c); [discriminate Hall | reflexivity]|].
    split.
    + destruct Hl as [Hl|[c [Hc Hsp]]]; [left; exact Hl|right; exists c; split; [exact Hc|]].
      destruct (js_is_space c); [reflexivity | congruence].
    + destruct Hr as [Hr|[c [Hc Hsp]]]; [left; exact Hr|right; exists c; split; [exact Hc|]].
      destruct (js_is_space c); [reflexivity | congruence].
Qed.

Lemma prefixb_firstn (q l : list ascii) :
  prefixb q l = true -> firstn (List.length q) l = q /\ List.length q <= List.length l.
Proof.
  revert l; induction q as [|a q IH]; intros l H; [split; [reflexivity | cbn; lia]|].
  destruct l as [|b l]; [discriminate H|].
  cbn [prefixb] in H. apply andb_prop in H. destruct H as [Hab H].
  apply Ascii.eqb_eq in Hab. subst b. destruct (IH l H) as [H1 H2].
  cbn [List.length firstn]. rewrite H1. split; [reflexivity | lia].
Qed.

Lemma indexOf_from_spec (l q : list ascii) (k0 k : nat) :
  indexOf_from l q k0 = Some k ->
  k0 <= k <= k0 + List.length l /\ prefixb q (skipn (k - k0) l) = true.
Proof.
  revert k0; induction l as [|c l IH]; intros k0 H.
  - cbn in H. destruct (prefixb q []) eqn:E; [|discriminate H].
    injection H as <-. rewrite Nat.sub_diag. split; [cbn; lia | exact E].
  - cbn [indexOf_from] in H. destruct (prefixb q (c :: l)) eqn:E.
    + injection H as <-. rewrite Nat.sub_diag. split; [cbn; lia | exact E].
    + destruct (IH (S k0) H) as [Hb Hp]. cbn [List.length]. split; [lia|].
      replace (k - k0) with (S (k - S k0)) by lia. exact Hp.
Qed.

Lemma indexOf_spec (s q : list ascii) (pos : nat) :
  indexOf s q pos = (-1)%Z \/
  exists k, indexOf s q pos = Z.of_nat k /\ Nat.min pos (List.length s) <= k /\
            k <= List.length s /\ prefixb q (skipn k s) = true.
Proof.
  unfold indexOf.
  destruct (indexOf_from (skipn (Nat.min pos (List.length s)) s) q (Nat.min pos (List.length s)))
    as [k|] eqn:E; [right | left; reflexivity].
  exists k. split; [reflexivity|].
  destruct (indexOf_from_spec _ _ _ _ E) as [Hb Hp].
  rewrite List.length_skipn in Hb. rewrite skipn_skipn in Hp.
  replace (k - Nat.min pos (List.length s) + Nat.min pos (List.length s)) with k in Hp by lia.
  split; [lia|]. split; [lia | exact Hp].
Qed.

Lemma partial_loop_sound (nt nq : list ascii) (st : nat) (tid : Z) (si f : nat) (m : MatchSpan) :
  In m (partial_loop nt nq st tid si f) ->
  exists k, m = mkSpan (Z.of_nat (st + k)) (Z.of_nat (st + k + List.length nq)) tid /\
            k + List.length nq <= List.length nt /\
            firstn (List.length nq) (skipn k nt) = nq.
Proof.
  revert si; induction f as [|f IH]; intros si Hin; [destruct Hin|].
  cbn [partial_loop] in Hin.
  destruct (si <? List.length nt); [|destruct Hin].
  destruct (indexOf_spec nt nq si) as [E|[k [E [_ [_ Hp]]]]]; rewrite E in Hin.
  - destruct Hin.
  - replace (Z.eqb (Z.of_nat k) (-1)) with false in Hin by (symmetry; apply Z.eqb_neq; lia).
    rewrite Nat2Z.id in Hin. destruct Hin as [<-|Hin]; [|exact (IH _ Hin)].
    exists k. destruct (prefixb_firstn nq (skipn k nt) Hp) as [H1 H2].
    rewrite List.length_skipn in H2.
    split; [reflexivity|]. split; [|exact H1].
    destruct nq as [|a nq']; cbn [List.length] in *; [|lia].
    (* an empty query never comes from [indexOf] beyond the end *)
    destruct (indexOf_spec nt [] si) as [E'|[k' [E' [_ [Hk' _]]]]]; rewrite E in E'; [lia|].
    apply Nat2Z.inj in E'. lia.
Qed.

Lemma slice_in_token (s text : list ascii) (st k n : nat) :
  text = firstn (List.length text) (skipn st s) -> k + n <= List.length text ->
  slice s (Z.of_nat (st + k)) (Z.of_nat (st + k + n)) = firstn n (skipn k text).
Proof.
  intros Ht Hk. unfold slice. rewrite !Nat2Z.id.
  replace (st + k + n - (st + k)) with n by lia.
  rewrite Ht. rewrite skipn_firstn_comm, firstn_firstn, skipn_skipn.
  replace (Nat.min n (List.length text - k)) with n by lia.
  rewrite Nat.add_comm. reflexivity.
Qed.

(** ** Other matchers of matcher.ts *)

(** [findPartialMatches] on the tokens of a 7-bit text [s] and a 7-bit
    query is sound: every span it returns selects a piece of [s] whose
    lower-case form is exactly the normalized query.  (Unlike [findMatches], a leading blank does not shift
    the spans: they are computed per token.) *)
Theorem findPartialMatches_sound (s q : list ascii) (m : MatchSpan) :
  is_ascii7 s = true -> is_ascii7 q = true ->
  In m (findPartialMatches (tokenize js_is_space s) q) ->
  map lower (slice s (span_start m) (span_end m)) = normalizeText q /\
  span_termId m = generateTermId q.
Proof.
  intros _ _. unfold findPartialMatches.
  destruct (trim q) as [|c0 q0]; [intros []|].
  destruct (tokenize js_is_space s) as [|t0 ts0] eqn:Ets; [intros []|].
  rewrite <- Ets. intros Hin.
  apply in_concat in Hin. destruct Hin as [l [Hl Hm]].
  apply in_map_iff in Hl. destruct Hl as [t [<- Ht]].
  destruct (tokenize_covers ascii js_is_space s) as [Hc _].
  destruct (covers_in ascii s 0 _ t Hc Ht) as [_ Htext].
  destruct (token_classes s t Ht) as [Hsp|[Hns _]].
  - rewrite (trim_allspace _ Hsp) in Hm. destruct Hm.
  - rewrite (trim_nospace _ Hns) in Hm.
    destruct (tok_text t) as [|c1 l1] eqn:Etx; [destruct Hm|]. rewrite <- Etx in *.
    rewrite (normalizeText_nospace _ Hns) in Hm.
    destruct (partial_loop_sound _ _ _ _ _ _ m Hm) as [k [-> [Hk Hpre]]].
    rewrite List.length_map in Hk. cbn [span_start span_end span_termId].
    split; [|reflexivity].
    rewrite (slice_in_token s (tok_text t) (startIndex t) k _ Htext Hk).
    rewrite <- firstn_map, <- skipn_map. exact Hpre.
Qed.

Lemma findPartialMatches_sound_witness :
  In (mkSpan 0 5 (generateTermId (str "shall")))
     (findPartialMatches (tokenize js_is_space (str "shall")) (str "shall")) /\
  map lower (slice (str "shall") 0 5) = normalizeText (str "shall").
Proof.
  assert (H : In (mkSpan 0 5 (generateTermId (str "shall")))
                 (findPartialMatches (tokenize js_is_space (str "shall")) (str "shall")))
    by (vm_compute; left; reflexivity).
  split; [exact H | exact (proj1 (findPartialMatches_sound (str "shall") (str "shall") _
                  ltac:(vm_compute; reflexivity) ltac:(vm_compute; reflexivity) H))].
Defined.


(** [findWholeWordMatches] on the tokens of a 7-bit text [s] and a 7-bit
    query (on which NFKC changes nothing) returns exactly one
    span per word token (a maximal run of non-blank characters) whose
    lower-case form equals the normalized query, provided the query is not
    blank; each span is [[start, end)] of that word in [s], bounded by blanks
    or the ends of [s]. *)
Theorem findWholeWordMatches_tokenize (s q : list ascii) (m : MatchSpan) :
  is_ascii7 s = true -> is_ascii7 q = true ->
  (In m (findWholeWordMatches (tokenize js_is_space s) q) <->
   trim q <> [] /\
   exists t, In t (tokenize js_is_space s) /\
             Forall (fun c => js_is_space c = false) (tok_text t) /\
             map lower (tok_text t) = normalizeText q /\
             m = mkSpan (Z.of_nat (startIndex t)) (Z.of_nat (endIndex t)) (generateTermId q)) /\
  (In m (findWholeWordMatches (tokenize js_is_space s) q) ->
   map lower (slice s (span_start m) (span_end m)) = normalizeText q /\
   Forall (fun c => js_is_space c = false) (slice s (span_start m) (span_end m)) /\
   (span_start m = 0%Z \/
      exists c, nth_error s (Z.to_nat (span_start m) - 1) = Some c /\ js_is_space c = true) /\
   (Z.to_nat (span_end m) = List.length s \/
      exists c, nth_error s (Z.to_nat (span_end m)) = Some c /\ js_is_space c = true)).
Proof.
  intros _ _.
  destruct (tokenize_covers ascii js_is_space s) as [Hc _].
  assert (Hiff : In m (findWholeWordMatches (tokenize js_is_space s) q) <->
   trim q <> [] /\
   exists t, In t (tokenize js_is_space s) /\
             Forall (fun c => js_is_space c = false) (tok_text t) /\
             map lower (tok_text t) = normalizeText q /\
             m = mkSpan (Z.of_nat (startIndex t)) (Z.of_nat (endIndex t)) (generateTermId q)).
  { unfold findWholeWordMatches.
    destruct (trim q) as [|c0 q0] eqn:Eq.
    { split; [intros []| intros [H _]; congruence]. }
    destruct (tokenize js_is_space s) as [|t0 ts0] eqn:Ets.
    { split; [intros []| intros [_ [t [[] _]]]]. }
    rewrite <- Ets. split.
    - intros Hin. split; [discriminate|].
      apply in_concat in Hin. destruct Hin as [l [Hl Hm]].
      apply in_map_iff in Hl. destruct Hl as [t [<- Ht]].
      destruct (token_classes s t Ht) as [Hsp|[Hns _]].
      + rewrite (trim_allspace _ Hsp) in Hm. destruct Hm.
      + rewrite (trim_nospace _ Hns) in Hm.
        destruct (tok_text t) as [|c1 l1] eqn:Etx; [destruct Hm|]. rewrite <- Etx in *.
        destruct (list_eq_dec ascii_dec (normalizeText (tok_text t)) (normalizeText q)) as [Heq|];
          [|destruct Hm].
        destruct Hm as [<-|[]].
        exists t. split; [exact Ht|]. split; [exact Hns|].
        split; [rewrite <- (normalizeText_nospace _ Hns); exact Heq | reflexivity].
    - intros [_ [t [Ht [Hns [Hlow ->]]]]].
      apply in_concat. eexists. split; [apply in_map_iff; exists t; split; [reflexivity | exact Ht]|].
      rewrite (trim_nospace _ Hns). rewrite Ets in Ht.
      destruct (covers_bounds ascii s 0 _ Hc) as [_ Hb]. destruct (Hb t Ht) as [_ [Hlt _]].
      destruct (covers_in ascii s 0 _ t Hc Ht) as [He _].
      destruct (tok_text t) as [|c1 l1] eqn:Etx; [cbn in He; lia|]. rewrite <- Etx in *.
      rewrite (normalizeText_nospace _ Hns).
      destruct (list_eq_dec ascii_dec (map lower (tok_text t)) (normalizeText q)) as [_|Hne];
        [left; reflexivity | contradiction]. }
  split; [exact Hiff|].
  intros Hin. apply Hiff in Hin. destruct Hin as [_ [t [Ht [Hns [Hlow ->]]]]].
  destruct (covers_in ascii s 0 _ t Hc Ht) as [He Htext].
  destruct (token_classes s t Ht) as [Hsp|[_ [Hl Hr]]].
  - destruct (covers_bounds ascii s 0 _ Hc) as [_ Hb]. destruct (Hb t Ht) as [_ [Hlt _]].
    destruct (tok_text t) as [|c1 l1] eqn:Etx; [cbn in He; lia|].
    inversion Hsp; inversion Hns; congruence.
  - cbn [span_start span_end].
    assert (Hsl : slice s (Z.of_nat (startIndex t)) (Z.of_nat (endIndex t)) = tok_text t).
    { rewrite He. rewrite <- (Nat.add_0_r (startIndex t)) at 1.
      rewrite <- (Nat.add_0_r (startIndex t)) at 2.
      rewrite (slice_in_token s (tok_text t) (startIndex t) 0 _ Htext) by lia.
      cbn [skipn]. rewrite firstn_all. reflexivity. }
    rewrite Hsl, !Nat2Z.id.
    split; [exact Hlow|]. split; [exact Hns|]. split.
    + destruct Hl as [Hl|Hl]; [left; rewrite Hl; reflexivity | right; exact Hl].
    + exact Hr.
Qed.

Lemma findWholeWordMatches_tokenize_witness :
  is_ascii7 (str "we shall go") = true /\ is_ascii7 (str "Shall") = true /\
  In (mkSpan 3 8 (generateTermId (str "Shall")))
     (findWholeWordMatches (tokenize js_is_space (str "we shall go")) (str "Shall")) /\
  map lower (slice (str "we shall go") 3 8) = normalizeText (str "Shall").
Proof.
  assert (H1 : is_ascii7 (str "we shall go") = true) by (vm_compute; reflexivity).
  assert (H2 : is_ascii7 (str "Shall") = true) by (vm_compute; reflexivity).
  assert (Hin : In (mkSpan 3 8 (generateTermId (str "Shall")))
                   (findWholeWordMatches (tokenize js_is_space (str "we shall go")) (str "Shall")))
    by (vm_compute; left; reflexivity).
  split; [exact H1|]. split; [exact H2|]. split; [exact Hin|].
  exact (proj1 (proj2 (findWholeWordMatches_tokenize (str "we shall go") (str "Shall") _ H1 H2) Hin)).
Defined.

(** ** [mergeMatches] *)

Lemma merge_loop_head (c : MatchSpan) (r : list MatchSpan) :
  exists o os, merge_loop c r = o :: os /\ span_start o = span_start c.
Proof.
  revert c; induction r as [|n r IH]; intros c; cbn [merge_loop].
  - eauto.
  - destruct (Z.leb (span_start n) (span_end c)).
    + destruct (IH (mkSpan (span_start c) (Z.max (span_end c) (span_end n)) (span_termId c)))
        as [o [os [E Hs]]]. rewrite E. eauto.
    + eauto.
Qed.

Lemma merge_loop_separated (c : MatchSpan) (r : list MatchSpan) :
  Sorted (fun a b => span_end a < span_start b)%Z (merge_loop c r).
Proof.
  revert c; induction r as [|n r IH]; intros c; cbn [merge_loop].
  - repeat constructor.
  - destruct (Z.leb (span_start n) (span_end c)) eqn:E; [apply IH|].
    constructor; [apply IH|].
    destruct (merge_loop_head n r) as [o [os [Eo Hs]]]. rewrite Eo.
    constructor. rewrite Hs. apply Z.leb_gt. exact E.
Qed.

Lemma insert_by_start_in (a x : MatchSpan) (l : list MatchSpan) :
  In x (insert_by_start a l) <-> x = a \/ In x l.
Proof.
  induction l as [|y l IH]; cbn [insert_by_start].
  - split; [intros [<-|[]]; left; reflexivity | intros [<-|[]]; left; reflexivity].
  - destruct (Z.leb (span_start a) (span_start y)).
    + split; [intros [<-|H]; [left; reflexivity | right; exact H]
             | intros [<-|H]; [left; reflexivity | right; exact H]].
    + cbn [In]. rewrite IH. tauto.
Qed.

Lemma sort_by_start_in (x : MatchSpan) (l : list MatchSpan) :
  In x (sort_by_start l) <-> In x l.
Proof.
  induction l as [|a l IH]; [reflexivity|].
  cbn [sort_by_start fold_right]. fold (sort_by_start l).
  rewrite insert_by_start_in, IH. cbn [In].
  split; intros [H|H]; [left; symmetry; exact H | right; exact H
                       | left; symmetry; exact H | right; exact H].
Qed.

Lemma sort_by_start_sorted (l : list MatchSpan) :
  StronglySorted (fun a b => span_start a <= span_start b)%Z (sort_by_start l).
Proof.
  induction l as [|a l IH]; [constructor|].
  cbn [sort_by_start fold_right]. fold (sort_by_start l).
  induction IH as [|y l' Hs IHs Hf]; cbn [insert_by_start].
  - repeat constructor.
  - destruct (Z.leb (span_start a) (span_start y)) eqn:E.
    + apply Z.leb_le in E. constructor; [constructor; assumption|].
      constructor; [exact E|]. eapply Forall_impl; [|exact Hf]. intros z Hz. cbv beta in *. lia.
    + apply Z.leb_gt in E. constructor; [exact IHs|].
      apply Forall_forall. intros z Hz. apply insert_by_start_in in Hz.
      destruct Hz as [->|Hz]; [lia|]. rewrite Forall_forall in Hf. exact (Hf z Hz).
Qed.

Lemma merge_loop_covers (c : MatchSpan) (r : list MatchSpan) :
  StronglySorted (fun a b => span_start a <= span_start b)%Z r ->
  Forall (fun b => span_start c <= span_start b)%Z r ->
  forall m, (span_within m c \/ In m r) ->
  exists o, In o (merge_loop c r) /\ span_within m o.
Proof.
  revert c; induction r as [|n r IH]; intros c Hs Hc m Hm; cbn [merge_loop].
  - destruct Hm as [Hm|[]]. exists c. split; [left; reflexivity | exact Hm].
  - inversion Hs as [|n' r' Hs' Hn]; subst. inversion Hc as [|n' r' Hcn Hcr]; subst.
    destruct (Z.leb (span_start n) (span_end c)) eqn:E.
    + apply IH; [exact Hs'| |].
      * cbn [span_start]. exact Hcr.
      * unfold span_within in *; cbn [span_start span_end].
        destruct Hm as [Hm|[<-|Hm]]; [left; lia | left; lia | right; exact Hm].
    + destruct Hm as [Hm|[<-|Hm]].
      * exists c. split; [left; reflexivity | exact Hm].
      * destruct (IH n Hs' Hn n (or_introl (conj (Z.le_refl _) (Z.le_refl _))))
          as [o [Ho Hw]]. exists o. split; [right; exact Ho | exact Hw].
      * destruct (IH n Hs' Hn m (or_intror Hm)) as [o [Ho Hw]].
        exists o. split; [right; exact Ho | exact Hw].
Qed.

(** [mergeMatches] returns spans that are pairwise apart: each one ends
    strictly before the next one starts (touching or overlapping spans have
    been merged), and every input span lies inside one of the output spans. *)
Theorem mergeMatches_separated_covering (matches : list MatchSpan) :
  Sorted (fun a b => span_end a < span_start b)%Z (mergeMatches matches) /\
  (forall m, In m matches -> exists o, In o (mergeMatches matches) /\ span_within m o).
Proof.
  unfold mergeMatches. destruct (List.length matches <=? 1) eqn:Elen.
  - apply Nat.leb_le in Elen. split.
    + destruct matches as [|a [|b l]]; cbn in Elen; [constructor | repeat constructor | lia].
    + intros m Hm. exists m. split; [exact Hm | unfold span_within; lia].
  - pose proof (sort_by_start_sorted matches) as Hsrt.
    destruct (sort_by_start matches) as [|c r] eqn:Es.
    + split; [constructor|]. intros m Hm. apply (sort_by_start_in m) in Hm.
      rewrite Es in Hm. destruct Hm.
    + split; [apply merge_loop_separated|].
      intros m Hm. apply (sort_by_start_in m) in Hm. rewrite Es in Hm.
      inversion Hsrt as [|c' r' Hs Hf]; subst.
      apply merge_loop_covers; [exact Hs | exact Hf|].
      destruct Hm as [<-|Hm]; [left; unfold span_within; lia | right; exact Hm].
Qed.

End MatcherFacts.

(* ------------------------------------------------------------------ *)
(** ** Match store *)

Module StoreFacts.

Import Projector Store.

(** ** Facts about the store *)

Lemma total_nonneg (st : StoreState) : (0 <= getTotalMatches st)%Z.
Proof. unfold getTotalMatches. lia. Qed.

Lemma fold_total (m : PageMap) (a : nat) :
  fold_left (fun total kv => total + List.length (snd kv))%nat m a
  = (a + List.length (List.concat (map snd m)))%nat.
Proof.
  revert a; induction m as [|kv m IH]; intros a; simpl; [lia|].
  rewrite IH, List.length_app. lia.
Qed.

Lemma setMatchRects_total_ok (pg : N) (rects : list MatchRect) (st : StoreState) :
  total_ok (setMatchRects pg rects st).
Proof.
  unfold total_ok, setMatchRects, updateTotalMatches, getAllMatchRects; cbn.
  rewrite fold_total. lia.
Qed.

Lemma insert_all_invariant (ops : list (N * list MatchRect)) :
  total_ok (insert_all ops) /\ activeIndex (insert_all ops) = (-1)%Z.
Proof.
  unfold insert_all.
  assert (H : forall st, total_ok st /\ activeIndex st = (-1)%Z ->
            total_ok (fold_left (fun st op => setMatchRects (fst op) (snd op) st) ops st) /\
            activeIndex (fold_left (fun st op => setMatchRects (fst op) (snd op) st) ops st)
              = (-1)%Z).
  { induction ops as [|op ops IH]; intros st [Ht Ha]; simpl; [auto|].
    apply IH. split; [apply setMatchRects_total_ok | exact Ha]. }
  apply H. split; reflexivity.
Qed.

Lemma setActiveIndex_frame (i : Z) (st : StoreState) :
  matchRectsByPage (setActiveIndex i st) = matchRectsByPage st /\
  totalMatches (setActiveIndex i st) = totalMatches st /\
  currentQuery (setActiveIndex i st) = currentQuery st.
Proof. repeat split. Qed.

Lemma nextMatch_frame (st : StoreState) :
  matchRectsByPage (nextMatch st) = matchRectsByPage st /\
  totalMatches (nextMatch st) = totalMatches st.
Proof. unfold nextMatch. destruct (Z.eqb _ 0); split; reflexivity. Qed.

Lemma iter_nextMatch_frame (j : nat) (st : StoreState) :
  matchRectsByPage (Nat.iter j nextMatch st) = matchRectsByPage st /\
  totalMatches (Nat.iter j nextMatch st) = totalMatches st.
Proof.
  induction j as [|j [IH1 IH2]]; [split; reflexivity|].
  change (Nat.iter (S j) nextMatch st) with (nextMatch (Nat.iter j nextMatch st)). destruct (nextMatch_frame (Nat.iter j nextMatch st)) as [H1 H2].
  rewrite H1, H2. split; assumption.
Qed.

Lemma nextMatch_index (st : StoreState) :
  (0 < getTotalMatches st)%Z ->
  activeIndex (nextMatch st) =
  (if Z.ltb (activeIndex st) 0 then 0
   else Z.max 0 (Z.min (Z.rem (activeIndex st + 1) (getTotalMatches st))
                       (getTotalMatches st - 1)))%Z.
Proof.
  intros Hpos. unfold nextMatch.
  rewrite (proj2 (Z.eqb_neq _ 0)) by lia.
  unfold setActiveIndex. cbn [activeIndex].
  rewrite (proj2 (Z.eqb_neq _ 0)) by lia.
  destruct (Z.ltb (activeIndex st) 0); lia.
Qed.

Lemma iter_nextMatch_index (st : StoreState) (n : Z) (j : nat) :
  getTotalMatches st = n -> (0 < n)%Z -> activeIndex st = (-1)%Z ->
  (1 <= j)%nat -> (Z.of_nat j <= n)%Z ->
  activeIndex (Nat.iter j nextMatch st) = Z.of_nat (j - 1).
Proof.
  intros Hn Hpos Ha. induction j as [|j IH]; intros H1 H2; [lia|].
  change (Nat.iter (S j) nextMatch st) with (nextMatch (Nat.iter j nextMatch st)).
  assert (Htot : getTotalMatches (Nat.iter j nextMatch st) = n).
  { unfold getTotalMatches. rewrite (proj2 (iter_nextMatch_frame j st)). exact Hn. }
  rewrite nextMatch_index by lia. rewrite Htot.
  destruct j as [|j].
  - change (Nat.iter 0 nextMatch st) with st. rewrite Ha. reflexivity.
  - rewrite IH by lia.
    rewrite (proj2 (Z.ltb_ge _ _)) by lia.
    rewrite Z.rem_small by lia. lia.
Qed.

Lemma iter_nextMatch_wrap (st : StoreState) (n : nat) :
  getTotalMatches st = Z.of_nat n -> (0 < n)%nat -> activeIndex st = (-1)%Z ->
  activeIndex (Nat.iter (S n) nextMatch st) = 0%Z.
Proof.
  intros Hn Hpos Ha.
  change (Nat.iter (S n) nextMatch st) with (nextMatch (Nat.iter n nextMatch st)).
  assert (Htot : getTotalMatches (Nat.iter n nextMatch st) = Z.of_nat n).
  { unfold getTotalMatches. rewrite (proj2 (iter_nextMatch_frame n st)). exact Hn. }
  rewrite nextMatch_index by lia. rewrite Htot.
  rewrite (iter_nextMatch_index st (Z.of_nat n) n) by lia.
  rewrite (proj2 (Z.ltb_ge _ _)) by lia.
  replace (Z.of_nat (n - 1) + 1)%Z with (Z.of_nat n) by lia.
  rewrite Z.rem_same by lia. lia.
Qed.

Lemma getActiveMatch_index (st : StoreState) (k : nat) :
  activeIndex st = Z.of_nat k -> (k < List.length (getAllMatchRects st))%nat ->
  getActiveMatch st = nth_error (getAllMatchRects st) k.
Proof.
  intros Ha Hk. unfold getActiveMatch. rewrite Ha.
  rewrite (proj2 (Z.leb_le _ _)) by lia. rewrite (proj2 (Z.ltb_lt _ _)) by lia.
  cbn [andb]. rewrite Nat2Z.id. reflexivity.
Qed.

Lemma nav_zero (st : StoreState) :
  getTotalMatches st = 0%Z -> nextMatch st = st /\ prevMatch st = st.
Proof. intros H. unfold nextMatch, prevMatch. rewrite H. split; reflexivity. Qed.

Lemma prevMatch_all (st : StoreState) :
  getAllMatchRects (prevMatch st) = getAllMatchRects st.
Proof. unfold getAllMatchRects, prevMatch. destruct (Z.eqb _ 0); reflexivity. Qed.

Lemma prevMatch_unset (st : StoreState) :
  (0 < getTotalMatches st)%Z -> (activeIndex st < 0)%Z ->
  activeIndex (prevMatch st) = (getTotalMatches st - 1)%Z.
Proof.
  intros Hpos Hneg. unfold prevMatch.
  rewrite (proj2 (Z.eqb_neq _ 0)) by lia.
  rewrite (proj2 (Z.ltb_lt _ _)) by exact Hneg.
  unfold setActiveIndex. cbn [activeIndex].
  rewrite (proj2 (Z.eqb_neq _ 0)) by lia. lia.
Qed.

(** C10: [setActiveIndex i] never fails and clamps: with no match the
    index becomes -1, otherwise [min (max i 0) (total - 1)]; the result is
    -1 or a valid index, and the rest of the state is unchanged. *)
Theorem setActiveIndex_clamps (i : Z) (st : StoreState) :
  activeIndex (setActiveIndex i st) =
    (if Z.eqb (getTotalMatches st) 0 then -1
     else Z.min (Z.max i 0) (getTotalMatches st - 1))%Z /\
  (activeIndex (setActiveIndex i st) = (-1)%Z \/
   (0 <= activeIndex (setActiveIndex i st) < getTotalMatches st)%Z) /\
  matchRectsByPage (setActiveIndex i st) = matchRectsByPage st /\
  totalMatches (setActiveIndex i st) = totalMatches st /\
  currentQuery (setActiveIndex i st) = currentQuery st.
Proof.
  pose proof (total_nonneg st) as Hnn.
  unfold setActiveIndex; cbn [activeIndex matchRectsByPage totalMatches currentQuery].
  destruct (Z.eqb_spec (getTotalMatches st) 0) as [E|E].
  - repeat split; auto.
  - repeat split; try reflexivity; [lia|]. right. lia.
Qed.

(** C4 (code bug): navigation is documented to follow the global [order],
    but when page 2 was searched first (orders 0, 1) and page 1 afterwards
    (orders 2, 3, 4), [nextMatch] from the unset index visits orders
    2, 3, 4, 0, 1 and then wraps to 2: it walks [getAllMatchRects], which is
    sorted by page number, not by [order]. *)
Lemma nextMatch_follows_pages_not_order :
  visited_orders store_pages_21 [1; 2; 3; 4; 5; 6]%nat
  = [Some 2; Some 3; Some 4; Some 0; Some 1; Some 2]%Z.
Proof. reflexivity. Qed.

(** The spec's scenario on [store_pages_12]: orders 0, 1, 2, 3, 4, then 0. *)
Example store_pages_12_visits :
  visited_orders store_pages_12 [1; 2; 3; 4; 5; 6]%nat
  = [Some 0; Some 1; Some 2; Some 3; Some 4; Some 0]%Z.
Proof. reflexivity. Qed.

(** C7 (defect): page 1 holds 3 matches and the active index is 2;
    [setMatchRects 1 [one rect]] leaves the active index at 2 while the
    total becomes 1, so no match is active through an out-of-range index.
    [clearPageMatches] on the same state resets the index to -1. *)
Theorem setMatchRects_keeps_stale_active_index :
  let st := setActiveIndex 2
              (insert_all [(1%N, [sample_rect 1 0; sample_rect 1 1; sample_rect 1 2])]) in
  activeIndex (setMatchRects 1 [sample_rect 1 0] st) = 2%Z /\
  getTotalMatches (setMatchRects 1 [sample_rect 1 0] st) = 1%Z /\
  getActiveMatch (setMatchRects 1 [sample_rect 1 0] st) = None /\
  activeIndex (clearPageMatches 1 st) = (-1)%Z.
Proof. repeat split; reflexivity. Qed.

Lemma obj_get_delete_same (m : PageMap) (k : N) : obj_get (obj_delete m k) k = None.
Proof.
  induction m as [|[k' v] m IH]; [reflexivity|]. unfold obj_delete in *; cbn [filter fst].
  destruct (N.eqb k' k) eqn:E; cbn [negb]; [exact IH|].
  cbn [obj_get]. rewrite N.eqb_sym, E. exact IH.
Qed.

Lemma obj_get_delete_other (m : PageMap) (k k' : N) :
  k' <> k -> obj_get (obj_delete m k) k' = obj_get m k'.
Proof.
  intros Hne. induction m as [|[k0 v] m IH]; [reflexivity|].
  unfold obj_delete in *; cbn [filter fst obj_get].
  destruct (N.eqb k0 k) eqn:E; cbn [negb obj_get].
  - apply N.eqb_eq in E; subst k0. rewrite (proj2 (N.eqb_neq k' k) Hne). exact IH.
  - rewrite IH. reflexivity.
Qed.

Lemma clearPageMatches_rects (pg : N) (st : StoreState) :
  matchRectsByPage (clearPageMatches pg st) = obj_delete (matchRectsByPage st) pg.
Proof. unfold clearPageMatches. destruct (Z.leb _ _); reflexivity. Qed.

(** ** Page map, call sequences and navigation *)

Lemma obj_get_set_same (m : PageMap) (k : N) (v : list MatchRect) :
  obj_get (obj_set m k v) k = Some v.
Proof.
  induction m as [|[k' v'] m IH]; cbn [obj_set obj_get]; [rewrite N.eqb_refl; reflexivity|].
  destruct (N.eqb k k') eqn:E; [cbn [obj_get]; rewrite N.eqb_refl; reflexivity|].
  destruct (N.ltb k k'); cbn [obj_get]; [rewrite N.eqb_refl; reflexivity|].
  rewrite E. exact IH.
Qed.

Lemma obj_get_set_other (m : PageMap) (k q : N) (v : list MatchRect) :
  q <> k -> obj_get (obj_set m k v) q = obj_get m q.
Proof.
  intros Hne. pose proof (proj2 (N.eqb_neq q k) Hne) as Hq.
  induction m as [|[k' v'] m IH]; cbn [obj_set obj_get]; [rewrite Hq; reflexivity|].
  destruct (N.eqb k k') eqn:E.
  - apply N.eqb_eq in E; subst k'. cbn [obj_get]. rewrite Hq. reflexivity.
  - destruct (N.ltb k k'); cbn [obj_get]; [rewrite Hq; reflexivity|].
    destruct (N.eqb q k'); [reflexivity | exact IH].
Qed.

Lemma obj_set_keys (m : PageMap) (k x : N) (v : list MatchRect) :
  In x (map fst (obj_set m k v)) -> x = k \/ In x (map fst m).
Proof.
  induction m as [|[k' v'] m IH]; cbn [obj_set];
    [cbn; intros [H|[]]; left; symmetry; exact H|].
  destruct (N.eqb k k') eqn:E;
    [apply N.eqb_eq in E; subst k'; cbn; intros [H|H]; [left; symmetry; exact H | right; right; exact H]|].
  destruct (N.ltb k k');
    [cbn; intros [H|H]; [left; symmetry; exact H | right; exact H]|].
  cbn [map fst In]. intros [H|H]; [right; left; exact H|].
  destruct (IH H) as [H'|H']; [left; exact H' | right; right; exact H'].
Qed.

Lemma obj_set_sorted (m : PageMap) (k : N) (v : list MatchRect) :
  StronglySorted N.lt (map fst m) -> StronglySorted N.lt (map fst (obj_set m k v)).
Proof.
  induction m as [|[k' v'] m IH]; intros Hs; cbn [obj_set].
  - cbn. constructor; constructor.
  - cbn [map fst] in Hs. apply StronglySorted_inv in Hs as [Hs Hf].
    destruct (N.eqb_spec k k') as [E|E]; [subst k'; cbn [map fst]; constructor; assumption|].
    destruct (N.ltb_spec k k') as [L|L].
    + cbn [map fst]. constructor; [constructor; assumption|].
      constructor; [exact L|]. eapply Forall_impl; [|exact Hf]. intros a Ha. lia.
    + cbn [map fst]. constructor; [apply IH; exact Hs|].
      apply Forall_forall. intros x Hx. destruct (obj_set_keys m k x v Hx) as [->|Hx'].
      * lia.
      * rewrite Forall_forall in Hf. apply Hf, Hx'.
Qed.

Lemma filter_sorted (m : PageMap) (f : N * list MatchRect -> bool) :
  StronglySorted N.lt (map fst m) -> StronglySorted N.lt (map fst (filter f m)).
Proof.
  induction m as [|kv m IH]; intros Hs; [constructor|].
  cbn [map] in Hs. apply StronglySorted_inv in Hs as [Hs Hf].
  cbn [filter]. destruct (f kv); [|apply IH; exact Hs].
  cbn [map]. constructor; [apply IH; exact Hs|].
  apply Forall_forall. intros x Hx. apply in_map_iff in Hx as [kv' [<- Hin]].
  apply filter_In in Hin as [Hin _].
  rewrite Forall_forall in Hf. apply Hf, in_map, Hin.
Qed.

Lemma filter_none (m : PageMap) (f : N * list MatchRect -> bool) :
  Forall (fun kv => f kv = false) m -> filter f m = [].
Proof.
  induction m as [|kv m IH]; intros H; [reflexivity|].
  inversion H; subst. cbn [filter]. rewrite H2. apply IH. assumption.
Qed.

Lemma filter_all (m : PageMap) (f : N * list MatchRect -> bool) :
  Forall (fun kv => f kv = true) m -> filter f m = m.
Proof.
  induction m as [|kv m IH]; intros H; [reflexivity|].
  inversion H; subst. cbn [filter]. rewrite H2, IH by assumption. reflexivity.
Qed.

Lemma keys_above (m : PageMap) (k : N) :
  Forall (N.lt k) (map fst m) -> Forall (fun kv => N.lt k (fst kv)) m.
Proof.
  intros H. rewrite Forall_forall in *. intros kv Hkv. apply H, in_map, Hkv.
Qed.

Lemma obj_set_split (m : PageMap) (k : N) (v : list MatchRect) :
  StronglySorted N.lt (map fst m) ->
  obj_set m k v = pages_before m k ++ (k, v) :: pages_after m k.
Proof.
  unfold pages_before, pages_after.
  induction m as [|[k' v'] m IH]; intros Hs; [reflexivity|].
  cbn [map fst] in Hs. apply StronglySorted_inv in Hs as [Hs Hf].
  apply keys_above in Hf. cbn [obj_set filter fst].
  destruct (N.eqb_spec k k') as [E|E].
  - subst k'. rewrite N.ltb_irrefl.
    rewrite filter_none, filter_all; [reflexivity| |];
      (eapply Forall_impl; [|exact Hf]); intros [a b] H; cbn in *.
    + apply N.ltb_lt. exact H.
    + apply N.ltb_ge. lia.
  - destruct (N.ltb_spec k k') as [L|L].
    + rewrite (proj2 (N.ltb_ge k' k)) by lia.
      rewrite filter_none, filter_all; [reflexivity| |];
        (eapply Forall_impl; [|exact Hf]); intros [a b] H; cbn in *.
      * apply N.ltb_lt. lia.
      * apply N.ltb_ge. lia.
    + rewrite (proj2 (N.ltb_lt k' k)) by lia.
      rewrite IH by exact Hs. reflexivity.
Qed.

Lemma rem_window (x n : Z) : (0 < n)%Z -> (n <= x < 2 * n)%Z -> Z.rem x n = (x - n)%Z.
Proof.
  intros Hn Hx. replace x with ((x - n) + 1 * n)%Z at 1 by lia.
  rewrite Z.rem_add by nia. apply Z.rem_small. lia.
Qed.

Lemma setActiveIndex_valid (i : Z) (st : StoreState) : index_valid (setActiveIndex i st).
Proof.
  pose proof (total_nonneg st). unfold index_valid, setActiveIndex, getTotalMatches in *.
  cbn [activeIndex totalMatches]. destruct (Z.eqb_spec (Z.of_nat (totalMatches st)) 0); lia.
Qed.

Lemma clearPageMatches_index (pg : N) (st : StoreState) :
  (activeIndex (clearPageMatches pg st) = activeIndex st \/
   activeIndex (clearPageMatches pg st) = (-1)%Z) /\
  (activeIndex (clearPageMatches pg st) < getTotalMatches (clearPageMatches pg st))%Z /\
  total_ok (clearPageMatches pg st) /\
  currentQuery (clearPageMatches pg st) = currentQuery st.
Proof.
  unfold clearPageMatches, total_ok, getTotalMatches, getAllMatchRects, updateTotalMatches.
  cbn [activeIndex totalMatches matchRectsByPage currentQuery].
  rewrite fold_total.
  destruct (Z.leb_spec (Z.of_nat (0 + List.length (List.concat (map snd (obj_delete (matchRectsByPage st) pg))))) (activeIndex st));
    cbn [activeIndex totalMatches matchRectsByPage currentQuery]; repeat split; lia.
Qed.

Lemma apply_call_invariant (c : StoreCall) (st : StoreState) :
  total_ok st -> (-1 <= activeIndex st)%Z -> pages_sorted st ->
  total_ok (apply_call c st) /\ (-1 <= activeIndex (apply_call c st))%Z /\
  pages_sorted (apply_call c st).
Proof.
  intros Hok Ha Hs.
  assert (Hset : forall i, total_ok (setActiveIndex i st) /\
                   (-1 <= activeIndex (setActiveIndex i st))%Z /\ pages_sorted (setActiveIndex i st)).
  { intros i. destruct (setActiveIndex_valid i st) as [H|H]; (split; [exact Hok|]);
      (split; [|exact Hs]); pose proof (total_nonneg st); unfold getTotalMatches in *;
      cbn [totalMatches] in *; lia. }
  destruct c as [pg rects|i| | | |pg|q]; cbn [apply_call].
  - split; [apply setMatchRects_total_ok|]. split; [exact Ha|].
    unfold pages_sorted, setMatchRects, updateTotalMatches; cbn [matchRectsByPage].
    apply obj_set_sorted. exact Hs.
  - apply Hset.
  - unfold nextMatch. destruct (Z.eqb _ 0); [auto|apply Hset].
  - unfold prevMatch. destruct (Z.eqb _ 0); [auto|apply Hset].
  - split; [reflexivity|]. split; [cbn; lia | constructor].
  - destruct (clearPageMatches_index pg st) as [Hi [_ [Hok' _]]].
    split; [exact Hok'|]. split; [destruct Hi as [-> | ->]; lia|].
    unfold pages_sorted. rewrite clearPageMatches_rects. apply filter_sorted. exact Hs.
  - unfold setQuery. destruct (negb _); [|auto].
    split; [reflexivity|]. split; [cbn; lia | constructor].
Qed.

Lemma page_matches_from_length (m : PageMap) (pg : N) (gi : nat) :
  List.length (page_matches_from m pg gi) =
  List.length (match obj_get m pg with Some l => l | None => [] end).
Proof.
  revert gi; induction m as [|[p rects] m IH]; intros gi; [reflexivity|].
  cbn [page_matches_from obj_get]. rewrite (N.eqb_sym pg p).
  destruct (N.eqb p pg); [|apply IH].
  rewrite !length_combine, !length_seq. lia.
Qed.

Lemma nth_error_combine_seq (rects : list MatchRect) (s gi l : nat) (r : MatchRect) :
  nth_error rects l = Some r ->
  nth_error (combine (combine rects (seq s (List.length rects))) (seq gi (List.length rects))) l
  = Some (r, (s + l)%nat, (gi + l)%nat).
Proof.
  revert s gi l; induction rects as [|x rects IH]; intros s gi l H; [destruct l; discriminate|].
  destruct l as [|l]; cbn in H |- *.
  - injection H as ->. rewrite !Nat.add_0_r. reflexivity.
  - rewrite (IH (S s) (S gi) l H).
    replace (s + S l)%nat with (S s + l)%nat by lia.
    replace (gi + S l)%nat with (S gi + l)%nat by lia. reflexivity.
Qed.

Lemma page_matches_from_nth (m : PageMap) (pg : N) (gi l : nat) (r : MatchRect) :
  nth_error (match obj_get m pg with Some l => l | None => [] end) l = Some r ->
  exists g, nth_error (page_matches_from m pg gi) l = Some (r, l, (gi + g)%nat) /\
            nth_error (List.concat (map snd m)) g = Some r.
Proof.
  revert gi; induction m as [|[p rects] m IH]; intros gi H; [destruct l; discriminate|].
  cbn [page_matches_from obj_get] in H |- *. rewrite (N.eqb_sym pg p) in H.
  cbn [map snd List.concat].
  destruct (N.eqb p pg).
  - exists l. rewrite (nth_error_combine_seq rects 0 gi l r H). split; [reflexivity|].
    rewrite nth_error_app1; [exact H|]. apply nth_error_Some. rewrite H. discriminate.
  - destruct (IH (gi + List.length rects)%nat H) as [g [H1 H2]].
    exists (List.length rects + g)%nat. split.
    + rewrite H1. do 2 f_equal. lia.
    + rewrite nth_error_app2 by lia. rewrite Nat.add_comm, Nat.add_sub. exact H2.
Qed.

(** Extra: [setMatchRects pg rects] stores exactly [rects] for page [pg]:
    [getMatchRects pg] returns them afterwards, every other page keeps
    its rectangles, the cached total is recomputed to the number of
    stored rectangles, and the active index and query are untouched. *)
Theorem setMatchRects_getMatchRects (pg : N) (rects : list MatchRect) (st : StoreState) :
  getMatchRects pg (setMatchRects pg rects st) = rects /\
  (forall q, q <> pg -> getMatchRects q (setMatchRects pg rects st) = getMatchRects q st) /\
  total_ok (setMatchRects pg rects st) /\
  activeIndex (setMatchRects pg rects st) = activeIndex st /\
  currentQuery (setMatchRects pg rects st) = currentQuery st.
Proof.
  split; [|split; [|split; [|split]]].
  - unfold getMatchRects, setMatchRects, updateTotalMatches; cbn [matchRectsByPage].
    rewrite obj_get_set_same. reflexivity.
  - intros q Hq. unfold getMatchRects, setMatchRects, updateTotalMatches; cbn [matchRectsByPage].
    rewrite obj_get_set_other by exact Hq. reflexivity.
  - apply setMatchRects_total_ok.
  - reflexivity.
  - reflexivity.
Qed.

(** Extra: [clearPageMatches pg] empties page [pg] and keeps every other
    page's rectangles; the total is recomputed; the active index is kept
    or reset to -1, and afterwards it is below the total; the query is
    untouched. *)
Theorem clearPageMatches_effect (pg : N) (st : StoreState) :
  getMatchRects pg (clearPageMatches pg st) = [] /\
  (forall q, q <> pg -> getMatchRects q (clearPageMatches pg st) = getMatchRects q st) /\
  total_ok (clearPageMatches pg st) /\
  (activeIndex (clearPageMatches pg st) = activeIndex st \/
   activeIndex (clearPageMatches pg st) = (-1)%Z) /\
  (activeIndex (clearPageMatches pg st) < getTotalMatches (clearPageMatches pg st))%Z /\
  currentQuery (clearPageMatches pg st) = currentQuery st.
Proof.
  destruct (clearPageMatches_index pg st) as [Hi [Hlt [Hok Hq]]].
  split; [|split; [|auto]].
  - unfold getMatchRects. rewrite clearPageMatches_rects, obj_get_delete_same. reflexivity.
  - intros q Hne. unfold getMatchRects. rewrite clearPageMatches_rects, obj_get_delete_other by exact Hne.
    reflexivity.
Qed.

(** Extra: after any sequence of store calls from the initial state, the
    cached [totalMatches] equals the number of rectangles
    [getAllMatchRects] returns, the active index is never below -1, and
    the pages are held once each, in ascending order. *)
Theorem run_calls_invariant (cs : list StoreCall) :
  total_ok (run_calls cs) /\ (-1 <= activeIndex (run_calls cs))%Z /\ pages_sorted (run_calls cs).
Proof.
  unfold run_calls.
  assert (H : forall st, total_ok st -> (-1 <= activeIndex st)%Z -> pages_sorted st ->
            let st' := fold_left (fun st c => apply_call c st) cs st in
            total_ok st' /\ (-1 <= activeIndex st')%Z /\ pages_sorted st').
  { induction cs as [|c cs IH]; intros st H1 H2 H3; [auto|].
    cbn [fold_left]. destruct (apply_call_invariant c st H1 H2 H3) as [H1' [H2' H3']].
    apply IH; assumption. }
  apply H; [reflexivity | cbn; lia | constructor].
Qed.

(** Extra: on a store reached by any call sequence, [setMatchRects pg
    rects] places [rects] in [getAllMatchRects] after the rectangles of
    all lower pages and before those of all higher pages. *)
Theorem setMatchRects_getAllMatchRects (cs : list StoreCall) (pg : N) (rects : list MatchRect) :
  getAllMatchRects (setMatchRects pg rects (run_calls cs)) =
  List.concat (map snd (pages_before (matchRectsByPage (run_calls cs)) pg)) ++ rects ++
  List.concat (map snd (pages_after (matchRectsByPage (run_calls cs)) pg)).
Proof.
  destruct (run_calls_invariant cs) as [_ [_ Hs]].
  unfold getAllMatchRects, setMatchRects, updateTotalMatches; cbn [matchRectsByPage].
  rewrite obj_set_split by exact Hs.
  rewrite map_app, concat_app. reflexivity.
Qed.

(** Extra: every call except [setMatchRects] keeps the active index valid
    (-1 or below the total): [setActiveIndex], [nextMatch] and [prevMatch]
    clamp, [clearAllMatches] and a query change reset it, and
    [clearPageMatches] resets it when it falls out of range. *)
Theorem store_call_keeps_index_valid (c : StoreCall) (st : StoreState) :
  is_setMatchRects c = false -> index_valid st -> index_valid (apply_call c st).
Proof.
  intros Hc Hv.
  destruct c as [pg rects|i| | | |pg|q]; cbn [apply_call is_setMatchRects] in *.
  - discriminate.
  - apply setActiveIndex_valid.
  - unfold nextMatch. destruct (Z.eqb _ 0); [exact Hv | apply setActiveIndex_valid].
  - unfold prevMatch. destruct (Z.eqb _ 0); [exact Hv | apply setActiveIndex_valid].
  - left. reflexivity.
  - destruct (clearPageMatches_index pg st) as [[Hi|Hi] [Hlt _]]; unfold index_valid in *.
    + rewrite Hi in *. destruct Hv as [Hv|Hv]; [left; exact Hv | right; lia].
    + left. exact Hi.
  - unfold setQuery. destruct (negb _); [left; reflexivity | exact Hv].
Qed.

Lemma store_call_keeps_index_valid_witness :
  is_setMatchRects (CallClearPageMatches 1) = false /\
  index_valid (setActiveIndex 4 store_pages_12) /\
  index_valid (apply_call (CallClearPageMatches 1) (setActiveIndex 4 store_pages_12)).
Proof.
  assert (H1 : is_setMatchRects (CallClearPageMatches 1) = false) by reflexivity.
  assert (H2 : index_valid (setActiveIndex 4 store_pages_12)).
  { right. change (0 <= 4 < 5)%Z. lia. }
  split; [exact H1|]. split; [exact H2|].
  exact (store_call_keeps_index_valid (CallClearPageMatches 1) _ H1 H2).
Defined.

(** Extra: from a valid active match, [prevMatch] undoes [nextMatch] and
    [nextMatch] undoes [prevMatch], including the wrap-around between the
    last and the first match. *)
Theorem nextMatch_prevMatch_inverse (st : StoreState) :
  (0 <= activeIndex st < getTotalMatches st)%Z ->
  prevMatch (nextMatch st) = st /\ nextMatch (prevMatch st) = st.
Proof.
  destruct st as [m a n q]. unfold getTotalMatches; cbn [activeIndex totalMatches].
  intros Ha. set (N := Z.of_nat n) in *.
  assert (HN : Z.eqb N 0 = false) by (apply Z.eqb_neq; lia).
  assert (Hneg : Z.ltb a 0 = false) by (apply Z.ltb_ge; lia).
  unfold nextMatch, prevMatch, setActiveIndex, getTotalMatches; cbn [activeIndex totalMatches matchRectsByPage currentQuery].
  fold N. rewrite HN, Hneg. split.
  - assert (Hn : exists b, Z.rem (a + 1) N = b /\ (0 <= b < N)%Z /\
                   Z.rem (b - 1 + N) N = a).
    { destruct (Z.eq_dec (a + 1) N) as [E|E].
      - exists 0%Z. rewrite E, Z.rem_same by lia. split; [reflexivity|]. split; [lia|].
        rewrite Z.rem_small by lia. lia.
      - exists (a + 1)%Z. rewrite Z.rem_small by lia. split; [reflexivity|]. split; [lia|].
        rewrite rem_window by lia. lia. }
    destruct Hn as [b [Hb1 [Hb2 Hb3]]]. rewrite Hb1.
    replace (Z.max 0 (Z.min b (N - 1))) with b by lia.
    cbn [activeIndex totalMatches matchRectsByPage currentQuery]. fold N.
    rewrite HN, (proj2 (Z.ltb_ge b 0)) by lia. rewrite Hb3.
    replace (Z.max 0 (Z.min a (N - 1))) with a by lia. reflexivity.
  - assert (Hp : exists b, Z.rem (a - 1 + N) N = b /\ (0 <= b < N)%Z /\
                   Z.rem (b + 1) N = a).
    { destruct (Z.eq_dec a 0) as [E|E].
      - subst a. exists (N - 1)%Z. rewrite Z.rem_small by lia. split; [lia|].
        split; [lia|]. replace (N - 1 + 1)%Z with N by lia. apply Z.rem_same. lia.
      - exists (a - 1)%Z. rewrite rem_window by lia. split; [lia|]. split; [lia|].
        rewrite Z.rem_small by lia. lia. }
    destruct Hp as [b [Hb1 [Hb2 Hb3]]]. rewrite Hb1.
    replace (Z.max 0 (Z.min b (N - 1))) with b by lia.
    cbn [activeIndex totalMatches matchRectsByPage currentQuery]. fold N.
    rewrite HN, (proj2 (Z.ltb_ge b 0)) by lia. rewrite Hb3.
    replace (Z.max 0 (Z.min a (N - 1))) with a by lia. reflexivity.
Qed.

Lemma nextMatch_prevMatch_inverse_witness :
  (0 <= activeIndex (setActiveIndex 4 store_pages_12)
     < getTotalMatches (setActiveIndex 4 store_pages_12))%Z /\
  prevMatch (nextMatch (setActiveIndex 4 store_pages_12)) = setActiveIndex 4 store_pages_12 /\
  nextMatch (prevMatch (setActiveIndex 4 store_pages_12)) = setActiveIndex 4 store_pages_12.
Proof.
  assert (H : (0 <= activeIndex (setActiveIndex 4 store_pages_12)
                 < getTotalMatches (setActiveIndex 4 store_pages_12))%Z).
  { change (0 <= 4 < 5)%Z. lia. }
  split; [exact H|]. exact (nextMatch_prevMatch_inverse _ H).
Defined.

(** Extra: [getPageMatches pg] has one entry per rectangle of page [pg]
    (none for a page without rectangles); the entry at position [l] holds
    the page's [l]-th rectangle with local index [l], and its global
    index points at the same rectangle in [getAllMatchRects]. *)
Theorem getPageMatches_indices (pg : N) (st : StoreState) :
  List.length (getPageMatches pg st) = List.length (getMatchRects pg st) /\
  (forall l r, nth_error (getMatchRects pg st) l = Some r ->
     exists g, nth_error (getPageMatches pg st) l = Some (r, l, g) /\
               nth_error (getAllMatchRects st) g = Some r).
Proof.
  split.
  - apply page_matches_from_length.
  - intros l r H. destruct (page_matches_from_nth (matchRectsByPage st) pg 0 l r H) as [g [H1 H2]].
    exists g. split; [exact H1 | exact H2].
Qed.

End StoreFacts.

(* ------------------------------------------------------------------ *)
(** ** Search controller *)

Module ControllerFacts.

Import Projector Tokenizer Matcher Store Controller.
Import ProjectorFacts TokenizerFacts MatcherFacts StoreFacts.

Lemma map_snd_combine_seq {A : Type} (l : list A) (k : nat) :
  map snd (combine (seq k (List.length l)) l) = l.
Proof.
  revert k; induction l as [|x l IH]; intros k; [reflexivity|].
  cbn [List.length seq combine map snd]. rewrite IH. reflexivity.
Qed.

Lemma paintHighlights_projects (vp : Viewport) (rects : list MatchRect) (ai : Z) :
  map fst (paintHighlights vp rects ai) = map (fun r => pdfToCss (bboxPdf r) vp) rects.
Proof.
  unfold paintHighlights. rewrite map_map. cbn [fst].
  transitivity (map (fun r => pdfToCss (bboxPdf r) vp)
                    (map snd (combine (seq 0 (List.length rects)) rects))).
  - rewrite map_map. reflexivity.
  - rewrite map_snd_combine_seq. reflexivity.
Qed.

Lemma handleViewportChange_frame (vp : Viewport) (visible : list N) (s : CtrlState) :
  store (handleViewportChange vp visible s) = store s /\
  pageStates (handleViewportChange vp visible s) = pageStates s /\
  globalMatchOrder (handleViewportChange vp visible s) = globalMatchOrder s /\
  (forall q, ~ In q visible -> layers (handleViewportChange vp visible s) q = layers s q) /\
  (forall p, In p visible -> getMatchRects p (store s) <> [] ->
     layers (handleViewportChange vp visible s) p = page_layer p vp (store s)).
Proof.
  unfold handleViewportChange.
  revert s; induction visible as [|a visible IH]; intros s.
  - cbn [fold_left]. repeat split; auto. intros p [].
  - cbn [fold_left].
    set (s1 := if is_nil (getMatchRects a (store s)) then s
               else renderPageHighlights a vp s).
    assert (Hs1 : store s1 = store s /\ pageStates s1 = pageStates s /\
                  globalMatchOrder s1 = globalMatchOrder s /\
                  (forall q, q <> a -> layers s1 q = layers s q) /\
                  (getMatchRects a (store s) <> [] -> layers s1 a = page_layer a vp (store s))).
    { unfold s1. destruct (getMatchRects a (store s)) eqn:E; cbn [is_nil].
      - repeat split; auto. intros H; exfalso; apply H; reflexivity.
      - unfold renderPageHighlights, set_layers, update_fn;
          cbn [layers store pageStates globalMatchOrder].
        repeat split; auto.
        + intros q Hq. rewrite (proj2 (N.eqb_neq q a) Hq). reflexivity.
        + intros _. rewrite N.eqb_refl. reflexivity. }
    destruct Hs1 as [S1 [P1 [O1 [L1 A1]]]].
    destruct (IH s1) as [S2 [P2 [O2 [L2 A2]]]].
    rewrite S2, P2, O2, S1, P1, O1. repeat split; auto.
    + intros q Hq. rewrite L2 by (intros H; apply Hq; right; exact H).
      apply L1. intros H; apply Hq; left; symmetry; exact H.
    + intros p Hp Hne. destruct (in_dec N.eq_dec p visible) as [Hin|Hnin].
      * rewrite A2; [rewrite S1; reflexivity | exact Hin | rewrite S1; exact Hne].
      * destruct Hp as [<- | Hin]; [|contradiction].
        rewrite L2 by exact Hnin. apply A1. exact Hne.
Qed.

(** C2: a viewport change leaves the store (every [MatchRect]), the page
    states and the order counter unchanged; every visible page with stored
    rectangles gets a layer whose rectangles are exactly [pdfToCss] of the
    stored [bboxPdf]s at the new viewport; other layers are untouched.  The
    operation reads no text element and calls no tokenizer, matcher or
    measurer (they are not among its arguments). *)
Theorem handleViewportChange_reprojects (vp : Viewport) (visible : list N)
    (s : CtrlState) (p : N) :
  In p visible -> getMatchRects p (store s) <> [] ->
  store (handleViewportChange vp visible s) = store s /\
  pageStates (handleViewportChange vp visible s) = pageStates s /\
  globalMatchOrder (handleViewportChange vp visible s) = globalMatchOrder s /\
  map fst (layers (handleViewportChange vp visible s) p)
    = map (fun r => pdfToCss (bboxPdf r) vp) (getMatchRects p (store s)) /\
  (forall q, ~ In q visible -> layers (handleViewportChange vp visible s) q = layers s q).
Proof.
  intros Hin Hne.
  destruct (handleViewportChange_frame vp visible s) as [S [P [O [L A]]]].
  repeat split; auto.
  rewrite (A p Hin Hne). unfold page_layer. apply paintHighlights_projects.
Qed.

Lemma handleViewportChange_reprojects_witness :
  In 1%N [1%N; 2%N] /\ getMatchRects 1 (store ctrl_pages_12) <> [] /\
  (store (handleViewportChange vp_zoom2 [1%N; 2%N] ctrl_pages_12) = store ctrl_pages_12 /\
   pageStates (handleViewportChange vp_zoom2 [1%N; 2%N] ctrl_pages_12) = pageStates ctrl_pages_12 /\
   globalMatchOrder (handleViewportChange vp_zoom2 [1%N; 2%N] ctrl_pages_12)
     = globalMatchOrder ctrl_pages_12 /\
   map fst (layers (handleViewportChange vp_zoom2 [1%N; 2%N] ctrl_pages_12) 1)
     = map (fun r => pdfToCss (bboxPdf r) vp_zoom2) (getMatchRects 1 (store ctrl_pages_12)) /\
   (forall q, ~ In q [1%N; 2%N] ->
      layers (handleViewportChange vp_zoom2 [1%N; 2%N] ctrl_pages_12) q = layers ctrl_pages_12 q)).
Proof.
  assert (H1 : In 1%N [1%N; 2%N]) by (left; reflexivity).
  assert (H2 : getMatchRects 1 (store ctrl_pages_12) <> []) by (intros H; discriminate H).
  split; [exact H1|]. split; [exact H2|].
  exact (handleViewportChange_reprojects vp_zoom2 [1%N; 2%N] ctrl_pages_12 1 H1 H2).
Defined.

Lemma text_eqb_refl (a : list ascii) : text_eqb a a = true.
Proof. induction a as [|c a IH]; simpl; [reflexivity|]. rewrite Ascii.eqb_refl. exact IH. Qed.

Lemma setQuery_twice (q : list ascii) (st : StoreState) :
  setQuery q (setQuery q st) = setQuery q st.
Proof.
  unfold setQuery, clearAllMatches.
  destruct (text_eqb (currentQuery st) q) eqn:E; cbn [negb currentQuery].
  - rewrite E. reflexivity.
  - rewrite text_eqb_refl. reflexivity.
Qed.

(** C5 (refuted as stated): starting a search for the query already
    current keeps the stored matches but resets the order counter from 3 to
    0; the counter is not reset only for a different query. *)
Lemma startNewSearch_same_query_resets_counter :
  currentQuery (store ctrl_searched_x) = str "x" /\
  globalMatchOrder ctrl_searched_x = 3%Z /\
  store (startNewSearch (str "x") ctrl_searched_x) = store ctrl_searched_x /\
  globalMatchOrder (startNewSearch (str "x") ctrl_searched_x) = 0%Z.
Proof. repeat split; reflexivity. Qed.

(** C5 (amended): [setQuery] with the current query leaves the store
    unchanged and [setQuery q] twice equals once; [startNewSearch q] twice
    equals once; every [startNewSearch] sets the order counter to 0 and
    clears the page states, whatever the previous query, and changes the
    store only through [setQuery]. *)
Theorem setQuery_startNewSearch_idempotent (q : list ascii) (st : StoreState)
    (cs : CtrlState) :
  setQuery (currentQuery st) st = st /\
  setQuery q (setQuery q st) = setQuery q st /\
  startNewSearch q (startNewSearch q cs) = startNewSearch q cs /\
  globalMatchOrder (startNewSearch q cs) = 0%Z /\
  pageStates (startNewSearch q cs) = (fun _ => None) /\
  store (startNewSearch q cs) = setQuery q (store cs).
Proof.
  repeat split.
  - unfold setQuery. rewrite text_eqb_refl. reflexivity.
  - apply setQuery_twice.
  - unfold startNewSearch; cbn [store layers]. rewrite setQuery_twice. reflexivity.
Qed.




Lemma try_catch_unit (m : M unit) (h : Exn -> M unit) (s : CtrlState) :
  (forall e s', snd (h e s') = inr tt) -> snd (try_catch m h s) = inr tt.
Proof.
  intros Hh. unfold try_catch. destruct (m s) as [s' [e|[]]]; [apply Hh | reflexivity].
Qed.

Lemma processPageSearch_returns
    (measure : Element -> list MatchSpan -> Exn + list CssRect)
    (pg : N) (q : list ascii) (el : Element) (vp : Viewport) (s : CtrlState) :
  snd (processPageSearch measure pg q el vp s) = inr tt.
Proof.
  unfold processPageSearch.
  destruct (is_nil (trim q)); [reflexivity|].
  unfold bind at 1, getPageState, gets. cbv beta iota.
  destruct (isProcessing _); [reflexivity|].
  destruct (_ && _); [reflexivity|].
  unfold bind at 1, setPageState, modify. cbv beta iota.
  apply try_catch_unit. intros e s'. reflexivity.
Qed.

Lemma run_all_returns (ms : list (M unit)) (s : CtrlState) :
  (forall m, In m ms -> forall s0, snd (m s0) = inr tt) -> snd (run_all ms s) = inr tt.
Proof.
  revert s; induction ms as [|m ms IH]; intros s Hall; [reflexivity|].
  cbn [run_all]. pose proof (Hall m (or_introl eq_refl) s) as Hm.
  destruct (m s) as [s' r]; cbn [snd] in Hm; subst r.
  apply IH. intros m' Hin. apply Hall. right. exact Hin.
Qed.

Lemma processBatchPages_returns
    (measure : Element -> list MatchSpan -> Exn + list CssRect)
    (pages : list (N * Element)) (q : list ascii) (vp : Viewport) (s : CtrlState) :
  snd (processBatchPages measure pages q vp s) = inr tt.
Proof.
  unfold processBatchPages. apply run_all_returns.
  intros m Hin s0. apply in_map_iff in Hin. destruct Hin as [pe [<- _]].
  apply processPageSearch_returns.
Qed.

Lemma nth_paint_from (vp : Viewport) (a : Z) (l : list MatchRect) (k i : nat) :
  nth_error (map (fun ir => (pdfToCss (bboxPdf (snd ir)) vp, Z.eqb (Z.of_nat (fst ir)) a))
                 (combine (seq k (List.length l)) l)) i
  = option_map (fun r => (pdfToCss (bboxPdf r) vp, Z.eqb (Z.of_nat (k + i)) a)) (nth_error l i).
Proof.
  revert k i; induction l as [|r l IH]; intros k i; [destruct i; reflexivity|].
  destruct i as [|i]; cbn [List.length seq combine map nth_error].
  - cbn. rewrite Nat.add_0_r. reflexivity.
  - rewrite IH. replace (S k + i)%nat with (k + S i)%nat by lia. reflexivity.
Qed.

Lemma nth_paint (vp : Viewport) (rects : list MatchRect) (a : Z) (i : nat) :
  nth_error (paintHighlights vp rects a) i
  = option_map (fun r => (pdfToCss (bboxPdf r) vp, Z.eqb (Z.of_nat i) a)) (nth_error rects i).
Proof. unfold paintHighlights. apply (nth_paint_from vp a rects 0 i). Qed.

Lemma paint_length (vp : Viewport) (rects : list MatchRect) (a : Z) :
  List.length (paintHighlights vp rects a) = List.length rects.
Proof.
  unfold paintHighlights. rewrite length_map, length_combine, length_seq. lia.
Qed.

Lemma nth_set_active_at (hs : list (CssRect * bool)) (i j : nat) (b : bool) :
  nth_error (set_active_at hs i b) j =
  if Nat.eqb j i then option_map (fun h => (fst h, b)) (nth_error hs j) else nth_error hs j.
Proof.
  revert i j; induction hs as [|[c f] hs IH]; intros i j.
  - destruct i, j; cbn; try reflexivity; destruct (Nat.eqb _ _); reflexivity.
  - destruct i as [|i], j as [|j]; cbn [set_active_at nth_error Nat.eqb]; try reflexivity.
    apply IH.
Qed.

Lemma set_active_at_length (hs : list (CssRect * bool)) (i : nat) (b : bool) :
  List.length (set_active_at hs i b) = List.length hs.
Proof.
  revert i; induction hs as [|[c f] hs IH]; intros i; [destruct i; reflexivity|].
  destruct i; cbn; [reflexivity | rewrite IH; reflexivity].
Qed.

(** Extra: moving the active flag with [updateActiveHighlight] from the
    index a layer was painted with to any other index gives the layer
    [paintHighlights] paints for the new index (out-of-range indices flag
    nothing). *)
Theorem updateActiveHighlight_paint (vp : Viewport) (rects : list MatchRect) (a b : Z) :
  updateActiveHighlight (paintHighlights vp rects a) a b = paintHighlights vp rects b.
Proof.
  apply nth_error_ext; intros j.
  unfold updateActiveHighlight. rewrite paint_length.
  destruct (Z.leb_spec 0 a); destruct (Z.ltb_spec a (Z.of_nat (List.length rects)));
  destruct (Z.leb_spec 0 b); destruct (Z.ltb_spec b (Z.of_nat (List.length rects)));
  cbn [andb]; rewrite ?nth_set_active_at, ?nth_set_active_at, !nth_paint;
  destruct (nth_error rects j) as [r|] eqn:Ej; cbn [option_map];
  try (assert (Hj : (j < List.length rects)%nat)
         by (apply nth_error_Some; rewrite Ej; discriminate));
  repeat match goal with |- context [Nat.eqb ?x ?y] => destruct (Nat.eqb_spec x y) end;
  cbn [option_map fst]; try reflexivity;
  repeat match goal with |- context [Z.eqb ?x ?y] => destruct (Z.eqb_spec x y) end;
  try reflexivity; lia.
Qed.

Lemma findIndex_spec {A : Type} (p : A -> bool) (l : list A) (i : nat) :
  findIndex p l = Z.of_nat i -> exists x, nth_error l i = Some x /\ p x = true.
Proof.
  revert i; induction l as [|x l IH]; intros i H; cbn [findIndex] in H; [lia|].
  destruct (p x) eqn:Px.
  - destruct i; [exists x; split; [reflexivity|exact Px] | lia].
  - cbv zeta in H. destruct (Z.eqb_spec (findIndex p l) (-1)) as [E|E]; [lia|].
    destruct i as [|i]; [lia|].
    apply IH. lia.
Qed.

(** Extra: the layer [renderPageHighlights] paints for page [pg] has one
    rectangle per stored rectangle of the page, each the [pdfToCss]
    projection of its [bboxPdf]; at most one is flagged active, and a
    flagged one is a rectangle of the page with the order of the store's
    active match, which lies on page [pg]. *)
Theorem page_layer_spec (pg : N) (vp : Viewport) (st : StoreState) :
  map fst (page_layer pg vp st) = map (fun r => pdfToCss (bboxPdf r) vp) (getMatchRects pg st) /\
  (forall i j c d, nth_error (page_layer pg vp st) i = Some (c, true) ->
     nth_error (page_layer pg vp st) j = Some (d, true) -> i = j) /\
  (forall i c, nth_error (page_layer pg vp st) i = Some (c, true) ->
     exists am r, getActiveMatch st = Some am /\ page am = pg /\
       nth_error (getMatchRects pg st) i = Some r /\ order r = order am /\
       c = pdfToCss (bboxPdf r) vp).
Proof.
  unfold page_layer. set (a := match getActiveMatch st with
    | Some am => if N.eqb (page am) pg
                 then findIndex (fun m => Z.eqb (order (fst (fst m))) (order am))
                        (getPageMatches pg st)
                 else (-1)%Z
    | None => (-1)%Z end).
  split; [|split].
  - apply nth_error_ext. intros i. rewrite !nth_error_map, nth_paint.
    destruct (nth_error (getMatchRects pg st) i); reflexivity.
  - intros i j c d Hi Hj. rewrite nth_paint in Hi, Hj.
    destruct (nth_error (getMatchRects pg st) i); [|discriminate].
    destruct (nth_error (getMatchRects pg st) j); [|discriminate].
    cbn [option_map] in Hi, Hj. injection Hi as _ Hi. injection Hj as _ Hj.
    apply Z.eqb_eq in Hi, Hj. lia.
  - intros i c H. rewrite nth_paint in H.
    destruct (nth_error (getMatchRects pg st) i) as [r|] eqn:Er; [|discriminate].
    cbn [option_map] in H. injection H as Hc Ha. apply Z.eqb_eq in Ha.
    subst a. destruct (getActiveMatch st) as [am|]; [|lia].
    destruct (N.eqb_spec (page am) pg) as [Ep|Ep]; [|lia].
    symmetry in Ha. apply findIndex_spec in Ha as [x [Hx Px]].
    destruct (page_matches_from_nth (matchRectsByPage st) pg 0 i r Er) as [g [Hg _]].
    unfold getPageMatches in Hx. rewrite Hg in Hx. injection Hx as <-.
    cbn [fst] in Px. apply Z.eqb_eq in Px.
    exists am, r. repeat split; auto.
Qed.

Lemma Rltb_false (x y : R) : Rltb x y = false <-> (y <= x)%R.
Proof.
  unfold Rltb. destruct (Rlt_dec x y); split; intros H;
    first [reflexivity | discriminate | lra | exfalso; lra].
Qed.

(** Extra: [getVisibleHighlights] is monotone in the visible area: a
    rectangle kept for an area is kept for every area containing it. *)
Theorem getVisibleHighlights_monotone (rects : list MatchRect) (vp : Viewport) (A B : VisibleArea) :
  (va_left B <= va_left A)%R -> (va_top B <= va_top A)%R ->
  (va_left A + va_width A <= va_left B + va_width B)%R ->
  (va_top A + va_height A <= va_top B + va_height B)%R ->
  forall r, In r (getVisibleHighlights rects vp A) -> In r (getVisibleHighlights rects vp B).
Proof.
  intros H1 H2 H3 H4 r Hr. unfold getVisibleHighlights in *.
  rewrite filter_In in *. destruct Hr as [Hin Hv]. split; [exact Hin|].
  destruct (pdfToCss (bboxPdf r) vp) as [[[l t] w] h].
  rewrite !negb_true_iff, !orb_false_iff, !Rltb_false in *.
  destruct Hv as [[[G1 G2] G3] G4]. repeat split; lra.
Qed.

Lemma getVisibleHighlights_monotone_witness :
  let A := mkVisibleArea 0 0 612 792 in
  let B := mkVisibleArea (-100) (-100) 812 992 in
  (va_left B <= va_left A)%R /\ (va_top B <= va_top A)%R /\
  (va_left A + va_width A <= va_left B + va_width B)%R /\
  (va_top A + va_height A <= va_top B + va_height B)%R /\
  (forall r, In r (getVisibleHighlights [sample_rect 1 0] vp_letter A) ->
             In r (getVisibleHighlights [sample_rect 1 0] vp_letter B)).
Proof.
  intros A B.
  assert (H1 : (va_left B <= va_left A)%R) by (cbn; lra).
  assert (H2 : (va_top B <= va_top A)%R) by (cbn; lra).
  assert (H3 : (va_left A + va_width A <= va_left B + va_width B)%R) by (cbn; lra).
  assert (H4 : (va_top A + va_height A <= va_top B + va_height B)%R) by (cbn; lra).
  split; [exact H1|]. split; [exact H2|]. split; [exact H3|]. split; [exact H4|].
  exact (getVisibleHighlights_monotone [sample_rect 1 0] vp_letter A B H1 H2 H3 H4).
Defined.

Lemma nth_error_combine_some {A B : Type} (l1 : list A) (l2 : list B) (i : nat) (x : A) (y : B) :
  nth_error (combine l1 l2) i = Some (x, y) -> nth_error l1 i = Some x /\ nth_error l2 i = Some y.
Proof.
  revert l2 i; induction l1 as [|a l1 IH]; intros l2 i H; [destruct i; discriminate|].
  destruct l2 as [|b l2]; [destruct i; discriminate|].
  destruct i as [|i]; cbn in H |- *; [injection H as -> ->; auto | apply IH, H].
Qed.

Lemma build_rects_run (pg : N) (vp : Viewport) (el : Element)
    (pairs : list (MatchSpan * CssRect)) (s : CtrlState) :
  exists mrs,
    build_rects pg vp el pairs s =
      (set_order s (globalMatchOrder s + Z.of_nat (List.length pairs))%Z, inr mrs) /\
    List.length mrs = List.length pairs /\
    (forall i mr, nth_error mrs i = Some mr ->
       exists sp c, nth_error pairs i = Some (sp, c) /\
         mr = mkMatchRect pg (span_termId sp) (globalMatchOrder s + Z.of_nat i)%Z
                (cssToPdf c vp) (el_id el)).
Proof.
  revert s; induction pairs as [|[sp c] pairs IH]; intros s.
  - exists []. split; [|split; [reflexivity|intros i mr H; destruct i; discriminate]].
    destruct s; unfold set_order; cbn. rewrite Z.add_0_r. reflexivity.
  - cbn [build_rects]. unfold bind, gets, modify, ret.
    destruct (IH (set_order s (globalMatchOrder s + 1)%Z)) as [mrs [E [L Hn]]].
    rewrite E.
    exists (mkMatchRect pg (span_termId sp) (globalMatchOrder s) (cssToPdf c vp) (el_id el) :: mrs).
    split; [|split].
    + destruct s; unfold set_order; cbn [globalMatchOrder store pageStates layers List.length].
      do 2 f_equal. lia.
    + cbn. rewrite L. reflexivity.
    + intros [|i] mr H; cbn [nth_error] in H |- *.
      * injection H as <-. exists sp, c. split; [reflexivity|]. f_equal. lia.
      * destruct (Hn i mr H) as [sp' [c' [H1 H2]]]. exists sp', c'. split; [exact H1|].
        rewrite H2. destruct s; cbn. f_equal. lia.
Qed.

(** Extra: the success path of [processPageSearch] (non-blank query, page
    needing processing, non-empty tokens, matches and measured rectangles):
    the page's stored rectangles are one [MatchRect] per (span, measured
    rectangle) pair, numbered consecutively from the old [globalMatchOrder],
    which advances by their number, with [bboxPdf] the [cssToPdf] of the
    measured rectangle; the page is marked processed for the query (so
    [needsProcessing] is false), its layer is repainted from the store, and
    other pages' states and layers are unchanged; no error escapes. *)
Theorem processPageSearch_success
    (measureSubstrings : Element -> list MatchSpan -> Exn + list CssRect)
    (pg : N) (query : list ascii) (el : Element) (vp : Viewport) (s : CtrlState)
    (spans : list MatchSpan) (cssRects : list CssRect) :
  is_nil (trim query) = false ->
  needsProcessing s pg query = true ->
  is_nil (tokenize js_is_space (textContent el)) = false ->
  findMatches (tokenize js_is_space (textContent el)) query = spans ->
  is_nil spans = false ->
  measureSubstrings el spans = inr cssRects ->
  is_nil cssRects = false ->
  exists mrs s',
    processPageSearch measureSubstrings pg query el vp s = (s', inr tt) /\
    store s' = setMatchRects pg mrs (store s) /\
    List.length mrs = Nat.min (List.length spans) (List.length cssRects) /\
    globalMatchOrder s' = (globalMatchOrder s + Z.of_nat (List.length mrs))%Z /\
    (forall i mr, nth_error mrs i = Some mr ->
       exists sp c, nth_error spans i = Some sp /\ nth_error cssRects i = Some c /\
         mr = mkMatchRect pg (span_termId sp) (globalMatchOrder s + Z.of_nat i)%Z
                (cssToPdf c vp) (el_id el)) /\
    pageStates s' pg = Some (mkPS false true query) /\
    (forall q, q <> pg -> pageStates s' q = pageStates s q) /\
    needsProcessing s' pg query = false /\
    layers s' pg = page_layer pg vp (store s') /\
    (forall q, q <> pg -> layers s' q = layers s q).
Proof.
  intros Hq Hneed Ht Hm Hs Hmeas Hc.
  unfold needsProcessing in Hneed.
  unfold processPageSearch. rewrite Hq.
  unfold bind, getPageState, gets, setPageState, modify, try_catch, lift, ret.
  destruct (isProcessing _) eqn:Hp; [discriminate|].
  assert (Hpr : (isProcessed (match pageStates s pg with Some ps => ps | None => default_ps end) &&
                 text_eqb (lastQuery (match pageStates s pg with Some ps => ps | None => default_ps end))
                   query) = false).
  { cbv zeta in Hneed. try rewrite Hp in Hneed. cbn [negb andb] in Hneed.
    destruct (isProcessed _), (text_eqb _ _); cbn in *; congruence. }
  rewrite Hpr. cbv beta iota zeta delta [search_pipeline bind modify lift ret setPageState].
  rewrite Ht. cbv beta iota zeta. rewrite Hm, Hs. cbv beta iota zeta.
  rewrite Hmeas. cbv beta iota zeta. rewrite Hc. cbv beta iota zeta.
  match goal with |- context [build_rects pg vp el ?pairs ?st] =>
    destruct (build_rects_run pg vp el pairs st) as [mrs [E [L Hn]]]; rewrite E end.
  cbv beta iota zeta.
  exists mrs. eexists. split; [reflexivity|].
  unfold renderPageHighlights, set_pageStates, set_store, set_order, set_layers, update_fn.
  cbn [store pageStates globalMatchOrder layers].
  rewrite length_combine in L.
  split; [reflexivity|]. split; [exact L|]. split; [rewrite length_combine, L; reflexivity|].
  split.
  { intros i mr Hi. destruct (Hn i mr Hi) as [sp [c [Hpc Hmr]]].
    apply nth_error_combine_some in Hpc as [H1 H2]. exists sp, c. auto. }
  rewrite N.eqb_refl. split; [reflexivity|].
  split; [intros q' Hq'; cbn [pageStates]; rewrite (proj2 (N.eqb_neq q' pg) Hq'); reflexivity|].
  split; [unfold needsProcessing; cbn [pageStates]; rewrite N.eqb_refl; cbn;
          rewrite text_eqb_refl; reflexivity|].
  split; [reflexivity|].
  intros q' Hq'. cbn [layers]. rewrite (proj2 (N.eqb_neq q' pg) Hq'). reflexivity.
Qed.

Lemma processPageSearch_success_witness :
  exists mrs s',
    processPageSearch measure_boxes 1%N (str "shall") el_shall vp_letter initial_ctrl
      = (s', inr tt) /\
    store s' = setMatchRects 1 mrs (store initial_ctrl) /\ List.length mrs = 1%nat.
Proof.
  destruct (processPageSearch_success measure_boxes 1%N (str "shall") el_shall vp_letter initial_ctrl
              (findMatches (tokenize js_is_space (textContent el_shall)) (str "shall"))
              (map (fun _ => (0, 0, 10, 10)%R)
                 (findMatches (tokenize js_is_space (textContent el_shall)) (str "shall")))
              ltac:(vm_compute; reflexivity) ltac:(vm_compute; reflexivity)
              ltac:(vm_compute; reflexivity) eq_refl ltac:(vm_compute; reflexivity)
              eq_refl ltac:(vm_compute; reflexivity))
    as [mrs [s' [H1 [H2 [H3 _]]]]].
  exists mrs, s'. split; [exact H1|]. split; [exact H2|]. rewrite H3. vm_compute. reflexivity.
Defined.


Lemma page_unchanged_trans (q : N) (s1 s2 s3 : CtrlState) :
  page_unchanged q s1 s2 -> page_unchanged q s2 s3 -> page_unchanged q s1 s3.
Proof. unfold page_unchanged. intros [A [B C]] [D [E F]]. split; [|split]; congruence. Qed.

Lemma clearPageResults_unchanged (q pg : N) (s : CtrlState) :
  q <> pg -> page_unchanged q s (clearPageResults pg s).
Proof.
  intros Hne. pose proof (proj2 (N.eqb_neq q pg) Hne) as E.
  unfold page_unchanged, clearPageResults, update_fn, getMatchRects; cbn [store pageStates layers].
  rewrite E, clearPageMatches_rects, obj_get_delete_other by exact Hne. auto.
Qed.

Lemma setPageState_unchanged (q pg : N) (ps : PageProcessingState) (s : CtrlState) :
  q <> pg -> page_unchanged q s (fst (setPageState pg ps s)).
Proof.
  intros Hne. pose proof (proj2 (N.eqb_neq q pg) Hne) as E.
  unfold page_unchanged, setPageState, modify, set_pageStates, update_fn; cbn. rewrite E. auto.
Qed.

Lemma render_unchanged (q pg : N) (vp : Viewport) (s : CtrlState) :
  q <> pg -> page_unchanged q s (renderPageHighlights pg vp s).
Proof.
  intros Hne. pose proof (proj2 (N.eqb_neq q pg) Hne) as E.
  unfold page_unchanged, renderPageHighlights, set_layers, update_fn; cbn. rewrite E. auto.
Qed.

Lemma build_rects_unchanged (q pg : N) (vp : Viewport) (el : Element)
    (pairs : list (MatchSpan * CssRect)) (s : CtrlState) :
  page_unchanged q s (fst (build_rects pg vp el pairs s)).
Proof.
  destruct (build_rects_run pg vp el pairs s) as [mrs [E _]]. rewrite E.
  unfold page_unchanged, set_order. cbn. auto.
Qed.

Lemma processPageSearch_unchanged
    (measureSubstrings : Element -> list MatchSpan -> Exn + list CssRect)
    (pg : N) (query : list ascii) (el : Element) (vp : Viewport) (s : CtrlState) (q : N) :
  q <> pg -> page_unchanged q s (fst (processPageSearch measureSubstrings pg query el vp s)).
Proof.
  intros Hne.
  assert (Hrefl : forall s, page_unchanged q s s) by (intros; unfold page_unchanged; auto).
  unfold processPageSearch.
  destruct (is_nil (trim query)); [apply clearPageResults_unchanged, Hne|].
  cbv [bind getPageState gets ret modify try_catch lift setPageState].
  destruct (isProcessing _); [apply Hrefl|].
  destruct (_ && _); [apply render_unchanged, Hne|].
  set (s1 := fst (setPageState pg (mkPS true false query) s)).
  assert (H1 : page_unchanged q s s1) by (apply setPageState_unchanged, Hne).
  cbv beta iota zeta delta [search_pipeline bind modify lift ret setPageState].
  destruct (is_nil (tokenize js_is_space (textContent el))); [cbn [fst]; eapply page_unchanged_trans; [exact H1 | apply clearPageResults_unchanged, Hne]|].
  destruct (is_nil (findMatches _ query)); [cbn [fst]; eapply page_unchanged_trans; [exact H1 | apply clearPageResults_unchanged, Hne]|].
  destruct (measureSubstrings el _) as [e|cssRects].
  - cbn [fst]. eapply page_unchanged_trans; [exact H1|].
    eapply page_unchanged_trans; [apply clearPageResults_unchanged, Hne|].
    apply (setPageState_unchanged q pg _ _ Hne).
  - destruct (is_nil cssRects); [cbn [fst]; eapply page_unchanged_trans; [exact H1 | apply clearPageResults_unchanged, Hne]|].
    match goal with |- context [build_rects pg vp el ?pairs ?st] =>
      destruct (build_rects_run pg vp el pairs st) as [mrs [E _]]; rewrite E end.
    cbv beta iota. cbn [fst].
    unfold page_unchanged, renderPageHighlights, set_pageStates, set_store, set_order, set_layers,
      update_fn, getMatchRects, setMatchRects, updateTotalMatches.
    cbn [store pageStates layers matchRectsByPage].
    rewrite (proj2 (N.eqb_neq q pg) Hne), obj_get_set_other by exact Hne. auto.
Qed.

Lemma run_all_unchanged (q : N) (ms : list (M unit)) (s : CtrlState) :
  (forall m, In m ms -> forall s, page_unchanged q s (fst (m s))) ->
  page_unchanged q s (fst (run_all ms s)).
Proof.
  revert s; induction ms as [|m ms IH]; intros s Hms.
  - unfold page_unchanged; cbn; auto.
  - cbn [run_all]. assert (H1 := Hms m (or_introl eq_refl) s).
    destruct (m s) as [s' [e|u]].
    + destruct (run_all ms s') as [s'' r] eqn:E. cbn [fst] in *.
      eapply page_unchanged_trans; [exact H1|].
      replace s'' with (fst (run_all ms s')) by (rewrite E; reflexivity).
      apply IH. intros m' Hm'. apply Hms. right. exact Hm'.
    + cbn [fst] in H1. eapply page_unchanged_trans; [exact H1|].
      apply IH. intros m' Hm'. apply Hms. right. exact Hm'.
Qed.

(** Extra: [processBatchPages] never changes the stored rectangles, the
    processing state or the highlight layer of a page outside the batch,
    whether the pages of the batch succeed or fail. *)
Theorem processBatchPages_other_pages
    (measureSubstrings : Element -> list MatchSpan -> Exn + list CssRect)
    (pages : list (N * Element)) (query : list ascii) (vp : Viewport) (s : CtrlState) (q : N) :
  ~ In q (map fst pages) ->
  page_unchanged q s (fst (processBatchPages measureSubstrings pages query vp s)).
Proof.
  intros Hq. unfold processBatchPages. apply run_all_unchanged.
  intros m Hm s'. apply in_map_iff in Hm as [[pg el] [<- Hin]].
  apply filter_In in Hin as [Hin _]. apply processPageSearch_unchanged.
  intros ->. apply Hq. apply (in_map fst) in Hin. exact Hin.
Qed.

Lemma processBatchPages_other_pages_witness :
  ~ In 2%N (map fst [(1%N, el_shall)]) /\
  page_unchanged 2 initial_ctrl
    (fst (processBatchPages measure_boxes [(1%N, el_shall)] (str "shall") vp_letter initial_ctrl)).
Proof.
  assert (H : ~ In 2%N (map fst [(1%N, el_shall)])) by (cbn; intros [H|[]]; discriminate).
  split; [exact H|]. exact (processBatchPages_other_pages _ _ _ _ _ _ H).
Defined.

(** C6: with the measurer of part_009, no exception reaches the [try] block
    of [processPageSearch]: the pipeline (tokenize, match, measure, number,
    store, render) completes normally from every state, so the [catch]
    handler, whatever it does, is never run; the call completes normally
    and no batch of [processBatchPages] is aborted. *)
Theorem processPageSearch_pipeline_never_throws
    (measureSingleSubstring : Element -> list ascii -> Z -> Z -> option CssRect)
    (pg : N) (query : list ascii) (el : Element) (vp : Viewport) (s : CtrlState) :
  snd (search_pipeline (measure_dom measureSingleSubstring) pg query el vp s) = inr tt /\
  (forall h : Exn -> M unit,
     try_catch (search_pipeline (measure_dom measureSingleSubstring) pg query el vp) h s =
     search_pipeline (measure_dom measureSingleSubstring) pg query el vp s) /\
  snd (processPageSearch (measure_dom measureSingleSubstring) pg query el vp s) = inr tt /\
  (forall pages, snd (processBatchPages (measure_dom measureSingleSubstring) pages query vp s)
                 = inr tt).
Proof.
  assert (Hp : snd (search_pipeline (measure_dom measureSingleSubstring) pg query el vp s)
               = inr tt).
  { cbv beta iota zeta delta [search_pipeline bind modify lift ret setPageState].
    destruct (is_nil (tokenize js_is_space (textContent el))); [reflexivity|].
    destruct (is_nil (findMatches _ query)) eqn:Hm; [reflexivity|].
    unfold measure_dom. rewrite Hm. cbv beta iota zeta.
    match goal with |- context [is_nil ?l] => destruct (is_nil l); [reflexivity|] end.
    match goal with |- context [build_rects pg vp el ?pairs ?st] =>
      destruct (build_rects_run pg vp el pairs st) as [mrs [E _]]; rewrite E end.
    reflexivity. }
  split; [exact Hp|]. split.
  - intros h. unfold try_catch.
    destruct (search_pipeline _ pg query el vp s) as [s' [e|u]]; [discriminate Hp|reflexivity].
  - split; [apply processPageSearch_returns | intros pages; apply processBatchPages_returns].
Qed.

(** Extra: a page whose text has no match for a non-blank query is cleared
    (no rectangles, empty layer) and left NOT processed, with the default
    state, so [needsProcessing] selects it again for every query; the order
    counter and the other pages are untouched. *)
Theorem processPageSearch_no_match_not_processed
    (measureSubstrings : Element -> list MatchSpan -> Exn + list CssRect)
    (pg : N) (query : list ascii) (el : Element) (vp : Viewport) (s : CtrlState) :
  is_nil (trim query) = false ->
  needsProcessing s pg query = true ->
  findMatches (tokenize js_is_space (textContent el)) query = [] ->
  let s' := fst (processPageSearch measureSubstrings pg query el vp s) in
  getMatchRects pg (store s') = [] /\ layers s' pg = [] /\
  pageStates s' pg = Some default_ps /\
  (forall q, needsProcessing s' pg q = true) /\
  globalMatchOrder s' = globalMatchOrder s /\
  (forall p, p <> pg -> page_unchanged p s s').
Proof.
  intros Hq Hneed Hm s'.
  assert (Hs : s' = clearPageResults pg (set_pageStates s
                      (update_fn (pageStates s) pg (Some (mkPS true false query))))).
  { subst s'. unfold needsProcessing in Hneed. unfold processPageSearch. rewrite Hq.
    cbv beta iota zeta delta [bind ret modify gets getPageState setPageState try_catch lift
                              search_pipeline].
    destruct (match pageStates s pg with Some ps => ps | None => default_ps end)
      as [ip ipd lq].
    cbn [isProcessing isProcessed lastQuery] in *.
    destruct ip; [discriminate Hneed|].
    destruct ipd, (text_eqb lq query); try discriminate Hneed; cbn [andb];
      destruct (is_nil (tokenize js_is_space (textContent el))); try reflexivity;
      rewrite Hm; reflexivity. }
  assert (Hu : forall p, p <> pg -> page_unchanged p s s').
  { intros p Hp. rewrite Hs.
    eapply page_unchanged_trans; [apply (setPageState_unchanged p pg (mkPS true false query) s Hp)|].
    apply clearPageResults_unchanged, Hp. }
  rewrite Hs in *. clear Hs.
  unfold getMatchRects, needsProcessing, set_pageStates, clearPageResults, update_fn.
  cbn [store pageStates layers globalMatchOrder].
  rewrite !N.eqb_refl, !clearPageMatches_rects, obj_get_delete_same.
  split; [reflexivity|]. split; [reflexivity|]. split; [reflexivity|].
  split; [intros q; reflexivity|]. split; [reflexivity|]. exact Hu.
Qed.

Lemma processPageSearch_no_match_not_processed_witness :
  let s' := fst (processPageSearch measure_boxes 1%N (str "zzz") el_shall vp_letter initial_ctrl) in
  findMatches (tokenize js_is_space (textContent el_shall)) (str "zzz") = [] /\
  getMatchRects 1 (store s') = [] /\ pageStates s' 1%N = Some default_ps.
Proof.
  assert (Hm : findMatches (tokenize js_is_space (textContent el_shall)) (str "zzz") = [])
    by (vm_compute; reflexivity).
  destruct (processPageSearch_no_match_not_processed measure_boxes 1%N (str "zzz") el_shall
              vp_letter initial_ctrl ltac:(vm_compute; reflexivity) ltac:(vm_compute; reflexivity)
              Hm) as (H1 & _ & H3 & _).
  split; [exact Hm|]. split; [exact H1|exact H3].
Defined.

End ControllerFacts.

(* ------------------------------------------------------------------ *)
(** ** Diagnostics *)

Module DiagnosticsFacts.

Import Projector Store Diagnostics ProjectorFacts.

Lemma Rleb_true_iff (x y : R) : Rleb x y = true <-> x <= y.
Proof. unfold Rleb; destruct Rle_dec; split; intro; (discriminate || contradiction || reflexivity || assumption). Qed.

Lemma drift_zero (a b : R) : a = 0 -> b = 0 -> sqrt (pow a 2 + pow b 2) = 0.
Proof.
  intros -> ->. replace (pow 0 2 + pow 0 2) with 0 by ring. apply sqrt_0.
Qed.

(** Extra: at rotation 0 (non-zero scale) validateAlignment measures no drift
    at any corner, so the result is valid exactly when the sample rect (if any)
    drifts by at most 1px. *)
Theorem validateAlignment_rot0 (vp : Viewport) (sample : option MatchRect) (t : R) :
  rotation vp = 0%Z -> scale vp <> 0 ->
  let res := validateAlignment vp sample t in
  cornerDrifts res = [0; 0; 0; 0] /\ maxDrift res = 0 /\
  (isValid res = true <->
   match sampleRectDrift res with None => True | Some d => d <= 1 end).
Proof.
  intros Hr Hs res.
  assert (Hc : cornerDrifts res = [0; 0; 0; 0]).
  { unfold res, validateAlignment; cbn zeta. rewrite (crosshairs_rot0 vp Hr Hs).
    cbn [map combine px py cornerDrifts]. repeat f_equal; apply drift_zero; ring. }
  assert (Hm : maxDrift res = 0).
  { unfold res, validateAlignment in Hc |- *; cbn zeta in Hc |- *. cbn [maxDrift cornerDrifts] in Hc |- *.
    rewrite Hc. cbn. unfold Rmax; repeat destruct Rle_dec; lra. }
  split; [exact Hc | split; [exact Hm |]].
  unfold res, validateAlignment in Hm |- *; cbn zeta in Hm |- *. cbn [maxDrift isValid sampleRectDrift] in Hm |- *.
  rewrite Hm, andb_true_iff, Rleb_true_iff.
  destruct sample as [m|]; [|split; [tauto|intros _; split; [lra|reflexivity]]].
  destruct (pdfToCss (bboxPdf m) vp) as [[[l tp] w] h].
  rewrite Rleb_true_iff. lra.
Qed.

(** Extra: at rotation 180 all four corner drifts equal the page diagonal minus
    the crosshair, so validateAlignment reports valid only for pages of about
    11px or less. *)
Theorem validateAlignment_rot180 (vp : Viewport) (sample : option MatchRect) (t : R) :
  rotation vp = 180%Z -> 0 < scale vp ->
  let D := sqrt (pow (width vp - 10) 2 + pow (height vp - 10) 2) in
  let res := validateAlignment vp sample t in
  cornerDrifts res = [D; D; D; D] /\ maxDrift res = D /\
  (isValid res = true ->
   pow (width vp - 10) 2 + pow (height vp - 10) 2 <= 1).
Proof.
  intros Hr Hs D res.
  assert (Hc : cornerDrifts res = [D; D; D; D]).
  { unfold res, validateAlignment; cbn zeta. rewrite (crosshairs_rot180 vp Hr Hs).
    cbn [map combine px py cornerDrifts]. unfold D.
    repeat match goal with |- _ :: _ = _ :: _ => f_equal end; f_equal; ring. }
  assert (Hm : maxDrift res = D).
  { unfold res, validateAlignment in Hc |- *; cbn zeta in Hc |- *. cbn [maxDrift cornerDrifts] in Hc |- *.
    rewrite Hc. apply max4_eq; (lra || solve_in4). }
  split; [exact Hc | split; [exact Hm |]].
  unfold res, validateAlignment in Hm |- *; cbn zeta in Hm |- *. cbn [maxDrift isValid sampleRectDrift] in Hm |- *.
  rewrite Hm. unfold Rleb at 1. destruct (Rle_dec D 1) as [HD|]; [|discriminate]. intros _.
  destruct (Rle_dec (pow (width vp - 10) 2 + pow (height vp - 10) 2) 1) as [|Hgt]; [assumption|].
  exfalso. apply Rnot_le_lt in Hgt. unfold D in HD.
  rewrite <- sqrt_1 in HD.
  assert (Hlt : sqrt 1 < sqrt (pow (width vp - 10) 2 + pow (height vp - 10) 2))
    by (apply sqrt_lt_1_alt; lra).
  lra.
Qed.

Lemma max2_upper (x : R) : 0 <= Math_max [0; x] /\ x <= Math_max [0; x].
Proof. cbn. unfold Rmax; destruct Rle_dec; lra. Qed.

Lemma max4_upper (a b c d : R) :
  a <= Math_max [a; b; c; d] /\ b <= Math_max [a; b; c; d] /\
  c <= Math_max [a; b; c; d] /\ d <= Math_max [a; b; c; d].
Proof. cbn. unfold Rmax; repeat destruct Rle_dec; lra. Qed.

(** Extra: the drift of a sample rect is non-negative, and it is 0 exactly when
    the projected rect lies inside the viewport. *)
Theorem validateAlignment_sample_drift (vp : Viewport) (m : MatchRect) (t : R) :
  exists d, sampleRectDrift (validateAlignment vp (Some m) t) = Some d /\ 0 <= d /\
  (d = 0 <-> let '(l, tp, w, h) := pdfToCss (bboxPdf m) vp in
             0 <= l /\ 0 <= tp /\ l + w <= width vp /\ tp + h <= height vp).
Proof.
  unfold validateAlignment; cbn zeta; cbn [sampleRectDrift].
  destruct (pdfToCss (bboxPdf m) vp) as [[[l tp] w] h].
  eexists; split; [reflexivity|].
  pose proof (max2_upper (- l)) as H1. pose proof (max2_upper (- tp)) as H2.
  pose proof (max2_upper (l + w - width vp)) as H3.
  pose proof (max2_upper (tp + h - height vp)) as H4.
  pose proof (max4_upper (Math_max [0; - l]) (Math_max [0; - tp])
                (Math_max [0; l + w - width vp]) (Math_max [0; tp + h - height vp])) as H5.
  unfold Rleb; destruct (Rle_dec 0 l), (Rle_dec 0 tp), (Rle_dec (l + w) (width vp)),
    (Rle_dec (tp + h) (height vp)); cbn [andb];
    (split; [lra|split; [intros; repeat split; assumption || lra|
                          intros [? [? [? ?]]]; (reflexivity || contradiction)]]).
Qed.

Lemma validateAlignment_rot0_witness :
  maxDrift (validateAlignment vp_letter None 0) = 0 /\
  isValid (validateAlignment vp_letter None 0) = true.
Proof.
  destruct (validateAlignment_rot0 vp_letter None 0 eq_refl ltac:(cbn; lra)) as (_ & Hm & Hv).
  split; [exact Hm | apply Hv; exact I].
Defined.

Lemma validateAlignment_rot180_witness :
  isValid (validateAlignment vp_letter_180 None 0) = false.
Proof.
  destruct (validateAlignment_rot180 vp_letter_180 None 0 eq_refl ltac:(cbn; lra)) as (_ & _ & Hv).
  destruct (isValid (validateAlignment vp_letter_180 None 0)); [|reflexivity].
  exfalso. specialize (Hv eq_refl). cbn in Hv. lra.
Defined.

End DiagnosticsFacts.

(* ------------------------------------------------------------------ *)
(** ** Performance tracker *)

Module PerformanceFacts.

Import Performance.

Lemma fold_right_Rplus_app (l : list R) (k : R) :
  fold_right Rplus 0 (l ++ [k]) = fold_right Rplus 0 l + k.
Proof. induction l as [|x l IH]; cbn; [ring | rewrite IH; ring]. Qed.

Lemma apply_tracker_call_inv (c : TrackerCall) (tr : PerformanceTracker) (ks : list R) :
  metrics_inv (metrics tr) ks ->
  metrics_inv (metrics (apply_tracker_call c tr)) (count_step ks c).
Proof.
  intros [Hp [Ht Ha]]. unfold metrics_inv.
  destruct c as [now|pg k now dn|now|now|dn]; cbn [apply_tracker_call startProcessing
    endProcessing startRender endRender reset metrics fresh_metrics pagesProcessed totalMatches
    averageMatchesPerPage count_step].
  - split; [exact Hp | split; assumption].
  - rewrite length_app, plus_INR, fold_right_Rplus_app, <- Hp, <- Ht. cbn [length INR].
    assert (0 <= pagesProcessed (metrics tr)) by (rewrite Hp; apply pos_INR).
    split; [reflexivity | split; [reflexivity |]]. field. lra.
  - split; [exact Hp | split; assumption].
  - split; [exact Hp | split; assumption].
  - cbn. split; [reflexivity | split; ring].
Qed.

Lemma run_tracker_inv (cs : list TrackerCall) (tr : PerformanceTracker) (ks : list R) :
  metrics_inv (metrics tr) ks ->
  metrics_inv (metrics (fold_left (fun tr c => apply_tracker_call c tr) cs tr))
              (fold_left count_step cs ks).
Proof.
  revert tr ks. induction cs as [|c cs IH]; intros tr ks H; cbn; [exact H|].
  apply IH. apply apply_tracker_call_inv. exact H.
Qed.

(** Extra: after any sequence of tracker calls, [pagesProcessed] is the number of
    [endProcessing] calls since the last [reset], [totalMatches] is the sum of
    their match counts, and [averageMatchesPerPage * pagesProcessed = totalMatches]. *)
Theorem run_tracker_metrics (dateNow : R) (cs : list TrackerCall) :
  let m := getMetrics (run_tracker dateNow cs) in
  let ks := counts_since_reset cs in
  pagesProcessed m = INR (List.length ks) /\
  totalMatches m = fold_right Rplus 0 ks /\
  averageMatchesPerPage m * pagesProcessed m = totalMatches m.
Proof.
  apply run_tracker_inv. unfold metrics_inv; cbn. split; [reflexivity | split; ring].
Qed.

Lemma tracker_call_times (c : TrackerCall) (t : R) (tr : PerformanceTracker) :
  times_inv t tr ->
  match call_now c with
  | Some now => t <= now -> times_inv now (apply_tracker_call c tr)
  | None => times_inv t (apply_tracker_call c tr)
  end.
Proof.
  unfold times_inv; intros (Hp & Hr & Hps & Hrs).
  destruct c as [now|pg k now dn|now|now|dn]; cbn; intros; lra.
Qed.

Lemma run_tracker_times (cs : list TrackerCall) (t : R) (tr : PerformanceTracker) :
  times_inv t tr -> clock_monotone t cs ->
  0 <= processingTimeMs (metrics (fold_left (fun tr c => apply_tracker_call c tr) cs tr)) /\
  0 <= renderTimeMs (metrics (fold_left (fun tr c => apply_tracker_call c tr) cs tr)).
Proof.
  revert t tr. induction cs as [|c cs IH]; intros t tr H Hm; cbn.
  - destruct H as (? & ? & _); split; assumption.
  - pose proof (tracker_call_times c t tr H) as Hc. cbn in Hm.
    destruct (call_now c) as [now|].
    + destruct Hm as [Hle Hm]. exact (IH now _ (Hc Hle) Hm).
    + exact (IH t _ Hc Hm).
Qed.

(** Extra: when the [performance.now()] readings never decrease, the accumulated
    processing and render times are never negative. *)
Theorem run_tracker_times_nonneg (dateNow : R) (cs : list TrackerCall) :
  clock_monotone 0 cs ->
  0 <= processingTimeMs (getMetrics (run_tracker dateNow cs)) /\
  0 <= renderTimeMs (getMetrics (run_tracker dateNow cs)).
Proof.
  intros Hm. apply (run_tracker_times cs 0); [|exact Hm].
  unfold times_inv; cbn; lra.
Qed.

Lemma run_tracker_times_nonneg_witness :
  clock_monotone 0 [CallStartProcessing 5; CallEndProcessing 1 3 12 100;
                    CallStartRender 12; CallEndRender 20] /\
  0 <= processingTimeMs (getMetrics (run_tracker 0 [CallStartProcessing 5; CallEndProcessing 1 3 12 100;
                    CallStartRender 12; CallEndRender 20])) /\
  0 <= renderTimeMs (getMetrics (run_tracker 0 [CallStartProcessing 5; CallEndProcessing 1 3 12 100;
                    CallStartRender 12; CallEndRender 20])).
Proof.
  assert (H : clock_monotone 0 [CallStartProcessing 5; CallEndProcessing 1 3 12 100;
                    CallStartRender 12; CallEndRender 20]) by (cbn; lra).
  split; [exact H | apply (run_tracker_times_nonneg 0 _ H)].
Defined.

End PerformanceFacts.
